(** * elegant/gui/stage_field.py: the life-stage annotation field

    A shallow embedding of [StageField]: its constructor, the backward
    fix-up of [set_stage] and the forward ordering pass of [update_widget],
    followed by the properties of the stage ordering they maintain.

    Conventions of the embedding.
    - Python exceptions are values of [exn]; a method is a function of the
      mutable state that returns the state reached together with either a
      value or the exception raised.  State written before a [raise] stays
      written.
    - The flipbook is a list of distinct page objects; a page is identified
      by its position in that list.  A page carries its [annotations]
      dictionary and its [color].
    - Dictionaries are [gmap]s; a key bound to [None] is not distinguished
      from an absent key, which is how [get_annotation] reads them.
    - A [str] is the string of its UTF-8 bytes; indexing goes by code
      point.
    - Integers are [Z], since the code uses [-1] both as a sentinel and as a
      list index. *)

From stdpp Require Import gmap strings list fin_maps.
From Stdlib Require Import ZArith Lia Ascii.

Open Scope Z_scope.

(** ** Exceptions and the state-and-exception monad *)

Inductive exn : Set :=
  | AssertionError
  | IndexError
  | KeyError
  | ValueError.

Inductive result (A : Type) : Type :=
  | Ok (a : A)
  | Raise (e : exn).
Arguments Ok {A} a.
Arguments Raise {A} e.

Definition M (S A : Type) : Type := S → S * result A.

Global Instance M_ret {S} : MRet (M S) := λ A a s, (s, Ok a).

Global Instance M_bind {S} : MBind (M S) := λ A B f m s,
  match m s with
  | (s', Ok a) => f a s'
  | (s', Raise e) => (s', Raise e)
  end.

Definition raise {S A} (e : exn) : M S A := λ s, (s, Raise e).
Definition gets {S A} (f : S → A) : M S A := λ s, (s, Ok (f s)).
Definition modify {S} (f : S → S) : M S unit := λ s, (f s, Ok tt).
Definition lift {S A} (r : result A) : M S A := λ s, (s, r).

(** [for x in xs: acc = body(x, acc)], with the loop's local variable
    threaded through the iterations. *)
Fixpoint for_in {S A L} (xs : list A) (acc : L) (body : A → L → M S L) : M S L :=
  match xs with
  | [] => mret acc
  | x :: xs' => acc' ← body x acc; for_in xs' acc' body
  end.

(** ** The Python built-ins the file relies on *)

Module Py.

(** [l[i]] for an integer [i]: negative indices count from the end, an
    index outside the list raises [IndexError]. *)
Definition getitem {A} (l : list A) (i : Z) : result A :=
  let n := Z.of_nat (length l) in
  let j := if i <? 0 then i + n else i in
  if (0 <=? j) && (j <? n)
  then match l !! Z.to_nat j with Some x => Ok x | None => Raise IndexError end
  else Raise IndexError.

(** A [str] is kept as its UTF-8 encoding (a lone surrogate encoded like
    any other code point), so that equal strings are equal [str]s.  Python
    indexes a [str] by code point; in the encoding a code point is a lead
    byte followed by its continuation bytes, the bytes [10xxxxxx]. *)
Definition is_continuation (c : ascii) : bool :=
  match c with
  | Ascii _ _ _ _ _ _ b6 b7 => b7 && negb b6
  end.

(** The continuation bytes [s] starts with (there are none in the encoding
    of a [str]) and the code points that follow them. *)
Fixpoint split_code_points (s : string) : string * list string :=
  match s with
  | EmptyString => (EmptyString, [])
  | String c rest =>
      let '(cont, cps) := split_code_points rest in
      if is_continuation c then (String c cont, cps)
      else (EmptyString, String c cont :: cps)
  end.

(** The [str] as Python sees it: the sequence of its code points. *)
Definition code_points (s : string) : list string :=
  match split_code_points s with
  | (EmptyString, cps) => cps
  | (cont, cps) => cont :: cps
  end.

(** [s[0]] for a [str]: its first code point, as a one-character [str], or
    [IndexError]. *)
Definition str_first (s : string) : result string :=
  getitem (code_points s) 0.

(** [l[1:]] and [l[1:-1]]. *)
Definition slice_1 {A} (l : list A) : list A := drop 1 l.
Definition slice_1_m1 {A} (l : list A) : list A :=
  drop 1 (take (length l - 1)%nat l).

(** The positions selected by [l[start::-1]] in a list of length [n]. *)
Definition slice_down (n : nat) (start : Z) : list nat :=
  let s := if start <? 0 then start + Z.of_nat n else start in
  let s := Z.min s (Z.of_nat n - 1) in
  if s <? 0 then [] else rev (seq 0 (S (Z.to_nat s))).

(** [d[k]] and [d.get(k, default)] where the key may be [None], which is
    never a key of the dictionaries of this file. *)
Definition dict_item {V} (d : gmap string V) (k : string) : result V :=
  match d !! k with Some v => Ok v | None => Raise KeyError end.
Definition dict_get {V} (d : gmap string V) (k : option string) (dflt : V) : V :=
  match k with
  | Some s => default dflt (d !! s)
  | None => dflt
  end.

(** [d.update(pairs)]: later pairs overwrite earlier ones. *)
Definition dict_update {V} (d : gmap string V) (kvs : list (string * V)) : gmap string V :=
  foldl (λ m kv, <[kv.1 := kv.2]> m) d kvs.

(** [enumerate(l)]. *)
Definition enumerate {A} (l : list A) : list (Z * A) :=
  imap (λ i x, (Z.of_nat i, x)) l.

End Py.

(** ** Construction *)

Definition Color : Type := Z * Z * Z.

Definition FIRST_COLOR : Color := (255, 255, 255).
Definition LAST_COLOR : Color := (184, 184, 184).

(** [COLOR_CYCLE] is an [itertools.cycle] stored on the class: one iterator
    for the whole process.  Its state is the number of colours drawn so
    far. *)
Definition COLOR_CYCLE_items : list Color :=
  [(184, 255, 184); (255, 255, 184); (184, 184, 255); (255, 184, 184); (255, 184, 255)].

Definition cycle_at (k : nat) : Color :=
  default FIRST_COLOR (COLOR_CYCLE_items !! (k mod length COLOR_CYCLE_items)%nat).

Definition COLOR_CYCLE_next : M nat Color :=
  λ k, (S k, Ok (cycle_at k)).

(** [zip(keys, COLOR_CYCLE)]: one colour is drawn for each key; when the
    keys run out nothing more is drawn. *)
Fixpoint zip_COLOR_CYCLE (keys : list string) : M nat (list (string * Color)) :=
  match keys with
  | [] => mret []
  | s :: keys' =>
      c ← COLOR_CYCLE_next;
      rest ← zip_COLOR_CYCLE keys';
      mret ((s, c) :: rest)
  end.

Record StageField : Type := {
  name : string;
  stages : list string;
  stage_indices : gmap string Z;
  transitions : list string;
  shortcuts : list string;
  colors : gmap string Color
}.

(** [[transition[0] for transition in transitions]] *)
Fixpoint first_letters (ts : list string) : result (list string) :=
  match ts with
  | [] => Ok []
  | t :: ts' =>
      match Py.str_first t with
      | Raise e => Raise e
      | Ok c =>
          match first_letters ts' with
          | Raise e => Raise e
          | Ok cs => Ok (c :: cs)
          end
      end
  end.

(** [{stage: i for i, stage in enumerate(stages)}] *)
Definition make_stage_indices (stages : list string) : gmap string Z :=
  foldl (λ m ix, <[ix.2 := ix.1]> m) ∅ (Py.enumerate stages).

Definition default_name : string := "stage".
Definition default_stages : list string := ["egg"; "larva"; "adult"; "dead"]%string.
Definition default_transitions : list string := ["hatch"; "adult"; "dead"]%string.

(** [StageField.__init__].  The state is the class-level [COLOR_CYCLE].
    The call [super().__init__(name)] stores the name and builds the Qt
    widget, which is outside the embedding. *)
Definition __init__ (name : string) (stages transitions : list string)
    (shortcuts : option (list string)) : M nat StageField :=
  (if decide (Z.of_nat (length transitions) = Z.of_nat (length stages) - 1)
   then mret tt else raise AssertionError);;
  let stage_indices := make_stage_indices stages in
  shortcuts ← match shortcuts with
              | None => lift (first_letters transitions)
              | Some sc => mret sc
              end;
  s_first ← lift (Py.getitem stages 0);
  s_last ← lift (Py.getitem stages (-1));
  let colors := <[s_last := LAST_COLOR]> (<[s_first := FIRST_COLOR]> ∅) in
  interior ← zip_COLOR_CYCLE (Py.slice_1_m1 stages);
  let colors := Py.dict_update colors interior in
  mret {| name := name; stages := stages; stage_indices := stage_indices;
          transitions := transitions; shortcuts := shortcuts; colors := colors |}.

(** ** Pages and the flipbook *)

Record Page : Type := {
  annotations : gmap string string;
  color : option Color
}.

(** The mutable state the field works on: the pages of the flipbook, the
    current page [self.page] (by position; a position past the end stands
    for a page that is not in the flipbook) and the text of [self.label]. *)
Record World : Type := {
  pages : list Page;
  page : nat;
  label : string
}.

Definition blank_page : Page := {| annotations := ∅; color := None |}.

Definition set_pages (w : World) (ps : list Page) : World :=
  {| pages := ps; page := page w; label := label w |}.

(** Run a computation on the page object at position [i].  Writes to a
    page that is not in the flipbook are not tracked. *)
Definition at_page {A} (i : nat) (m : M Page A) : M World A := λ w,
  match pages w !! i with
  | Some p => let '(p', r) := m p in (set_pages w (<[i := p']> (pages w)), r)
  | None => (w, (m blank_page).2)
  end.

(** Modelled from the spec: [get_annotation(page)] of the base class
    [AnnotationField] (not in this repository) reads the page's label for
    this annotation name, [None] when there is none. *)
Definition get_annotation (self : StageField) : M Page (option string) :=
  gets (λ p, annotations p !! name self).

(** [page.annotations[self.name] = value] *)
Definition set_annotation (self : StageField) (value : string) : M Page unit :=
  modify (λ p, {| annotations := <[name self := value]> (annotations p);
                  color := color p |}).

(** [page.color = c] *)
Definition set_color (c : option Color) : M Page unit :=
  modify (λ p, {| annotations := annotations p; color := c |}).

(** Modelled from the spec: [update_annotation(value)] of the base class
    [AnnotationField] (not in this repository) writes the value onto the
    current page's label for this annotation name. *)
Definition update_annotation (self : StageField) (value : string) : M World unit :=
  cur ← gets page;
  at_page cur (set_annotation self value).

(** [self.label.setText(text)] *)
Definition setText (text : string) : M World unit :=
  modify (λ w, {| pages := pages w; page := page w; label := text |}).

(** [self.flipbook.pages.index(self.page)] *)
Definition pages_index_page : M World Z := λ w,
  if decide (page w < length (pages w))%nat
  then (w, Ok (Z.of_nat (page w)))
  else (w, Raise ValueError).

(** ** update_widget *)

(** The body of the loop of [update_widget], run on one page. *)
Definition update_widget_page (self : StageField) (oldest_stage_i : Z) : M Page Z :=
  page_stage ← get_annotation self;
  let page_stage_i := Py.dict_get (stage_indices self) page_stage (-1) in
  '(oldest_stage_i, page_stage) ←
    (if oldest_stage_i <? page_stage_i then
       mret (page_stage_i, page_stage)
     else if page_stage_i <? oldest_stage_i then
       s ← lift (Py.getitem (stages self) oldest_stage_i);
       set_annotation self s;;
       mret (oldest_stage_i, Some s)
     else
       mret (oldest_stage_i, page_stage));
  match page_stage with
  | None => set_color None
  | Some s =>
      c ← lift (Py.dict_item (colors self) s);
      set_color (Some c)
  end;;
  mret oldest_stage_i.

Definition update_widget (self : StageField) (value : option string) : M World unit :=
  match value with
  | None => setText ""
  | Some v =>
      if decide (v ∈ stages self) then setText v else raise ValueError
  end;;
  ps ← gets pages;
  for_in (seq 0 (length ps)) (-1)
    (λ i oldest_stage_i, at_page i (update_widget_page self oldest_stage_i));;
  mret tt.

(** ** set_stage *)

(** The body of the backward loop of [set_stage], run on one page. *)
Definition set_stage_page (self : StageField) (youngest_stage_i : Z) : M Page Z :=
  page_stage ← get_annotation self;
  let page_stage_i :=
    Py.dict_get (stage_indices self) page_stage (Z.of_nat (length (stages self))) in
  if page_stage_i <? youngest_stage_i then
    mret page_stage_i
  else
    s ← lift (Py.getitem (stages self) youngest_stage_i);
    set_annotation self s;;
    mret youngest_stage_i.

(** [set_stage] up to, and without, its final call of [update_widget]: the
    label is written on the current page and the pages before it are fixed
    up. *)
Definition set_stage_backward (self : StageField) (stage : string) : M World unit :=
  update_annotation self stage;;
  fb_i ← pages_index_page;
  stage_i ← lift (Py.dict_item (stage_indices self) stage);
  let youngest_stage_i := stage_i - 1 in
  if 0 <? fb_i then
    ps ← gets pages;
    for_in (Py.slice_down (length ps) (fb_i - 1)) youngest_stage_i
      (λ i youngest_stage_i, at_page i (set_stage_page self youngest_stage_i));;
    mret tt
  else mret tt.

Definition set_stage (self : StageField) (stage : string) : M World unit :=
  set_stage_backward self stage;;
  update_widget self (Some stage).

(** A user action: the host makes the page at position [cur] current and a
    transition button calls [set_stage] with its target stage. *)
Definition press (self : StageField) (act : nat * string) : M World unit :=
  modify (λ w, {| pages := pages w; page := act.1; label := label w |});;
  set_stage self act.2.

Fixpoint press_all (self : StageField) (acts : list (nat * string)) : M World unit :=
  match acts with
  | [] => mret tt
  | act :: acts' => press self act;; press_all self acts'
  end.

(** ** Notions used to state the properties *)

(** The label a page carries for this field, and the same page with its
    label overwritten. *)
Definition page_label (self : StageField) (p : Page) : option string :=
  annotations p !! name self.

Definition relabel (self : StageField) (s : string) (p : Page) : Page :=
  {| annotations := <[name self := s]> (annotations p); color := color p |}.

Definition labels (self : StageField) (ps : list Page) : list (option string) :=
  page_label self <$> ps.

(** The position of a stage name in the stage list; the last one, should a
    name occur twice, as in a dictionary built from [enumerate]. *)
Fixpoint position (stages : list string) (s : string) : option nat :=
  match stages with
  | [] => None
  | x :: rest =>
      match position rest s with
      | Some i => Some (S i)
      | None => if decide (x = s) then Some 0%nat else None
      end
  end.

(** Adjacent pages that both carry a label carry stages in non-decreasing
    position. *)
Definition monotone (self : StageField) (ps : list Page) : Prop :=
  ∀ (i : nat) (a b : string),
    labels self ps !! i = Some (Some a) →
    labels self ps !! S i = Some (Some b) →
    ∃ ia ib : Z,
      stage_indices self !! a = Some ia ∧ stage_indices self !! b = Some ib ∧ ia ≤ ib.

(** The unlabelled pages are the first pages of the flipbook. *)
Definition unset_prefix (self : StageField) (ps : list Page) : Prop :=
  ∀ (i j : nat) (a : string),
    labels self ps !! i = Some (Some a) → (i < j < length ps)%nat →
    ∃ b : string, labels self ps !! j = Some (Some b).

(** The stage position [update_widget] computes for a page (unset: [-1]),
    and the value of its running maximum after a run of pages. *)
Definition forward_position (self : StageField) (p : Page) : Z :=
  Py.dict_get (stage_indices self) (page_label self p) (-1).

Definition oldest_seen (self : StageField) (ps : list Page) : Z :=
  foldl (λ o p, Z.max o (forward_position self p)) (-1) ps.

(** The backward pass as the specification words it.  A page's position is
    that of its label, an unset label counting as greater than every real
    stage (a label that is no stage name is counted likewise); the pass
    goes through the pages it is given in order, keeping the
    youngest-allowed position. *)
Definition spec_position (self : StageField) (p : Page) : nat :=
  match page_label self p with
  | None => length (stages self)
  | Some s => default (length (stages self)) (position (stages self) s)
  end.

Definition spec_overwrite (self : StageField) (youngest_allowed : nat) (p : Page) : Page :=
  match stages self !! youngest_allowed with
  | Some s => relabel self s p
  | None => p
  end.

Fixpoint backward_pass_spec (self : StageField) (youngest_allowed : nat)
    (visited : list Page) : list Page :=
  match visited with
  | [] => []
  | p :: rest =>
      let pos := spec_position self p in
      if (pos <? youngest_allowed)%nat then
        p :: backward_pass_spec self pos rest
      else
        spec_overwrite self youngest_allowed p
          :: backward_pass_spec self youngest_allowed rest
  end.

(** A loop over page objects, each iteration working on its own page, seen
    as a pass over the list of pages: the pages reached so far and the
    outcome.  A raise leaves the pages not yet visited as they were. *)
Fixpoint traverse {L} (step : L → M Page L) (acc : L) (ps : list Page)
    : list Page * result L :=
  match ps with
  | [] => ([], Ok acc)
  | p :: ps' =>
      match step acc p with
      | (p', Ok acc') =>
          let '(ps'', r) := traverse step acc' ps' in (p' :: ps'', r)
      | (p', Raise e) => (p' :: ps', Raise e)
      end
  end.

(** The field a successful construction returns. *)
Definition built (nm : string) (S0 T scs : list string) (s_first s_last : string) (k : nat)
    : StageField :=
  {| name := nm; stages := S0; stage_indices := make_stage_indices S0;
     transitions := T; shortcuts := scs;
     colors := Py.dict_update (<[s_last := LAST_COLOR]> (<[s_first := FIRST_COLOR]> ∅))
                 (zip (Py.slice_1_m1 S0)
                      (cycle_at <$> seq k (length (Py.slice_1_m1 S0)))) |}.

(** The shortcut list the constructor ends up with: the one given, or the
    first letters of the transitions. *)
Definition shortcuts_or_default (sc : option (list string)) (T : list string)
    : result (list string) :=
  match sc with
  | Some l => Ok l
  | None => first_letters T
  end.

(** What construction guarantees of a field: the index dictionary is the
    one of the stage list, and the coloured names are the stage names. *)
Definition wf_field (self : StageField) : Prop :=
  stage_indices self = make_stage_indices (stages self) ∧
  ∀ s, is_Some (colors self !! s) ↔ s ∈ stages self.

(** The end of the loop body of [update_widget]: the page gets the colour
    of [page_stage]. *)
Definition recolor (c : option Color) (p : Page) : Page :=
  {| annotations := annotations p; color := c |}.

Definition paint (self : StageField) (page_stage : option string) (oldest : Z) (p : Page)
    : Page * result Z :=
  match page_stage with
  | None => (recolor None p, Ok oldest)
  | Some s =>
      match colors self !! s with
      | Some c => (recolor (Some c) p, Ok oldest)
      | None => (p, Raise KeyError)
      end
  end.

(** Pages whose stage positions never fall below [o] nor below an earlier
    page's, and whose labels, when set, are stage names. *)
Fixpoint ascending (self : StageField) (o : Z) (ps : list Page) : Prop :=
  match ps with
  | [] => True
  | p :: ps' =>
      o ≤ forward_position self p ∧
      (forward_position self p = -1 → page_label self p = None) ∧
      ascending self (forward_position self p) ps'
  end.

(** The loop of [update_widget] as a pass over the pages, and the state
    [update_widget] starts that loop in. *)
Definition update_widget_pages (self : StageField) (o : Z) (ps : list Page)
    : list Page * result Z :=
  traverse (update_widget_page self) o ps.

Definition with_text (value : option string) (w : World) : World :=
  {| pages := pages w; page := page w; label := default EmptyString value |}.

Definition outcome {A} (r : result A) : result unit :=
  match r with
  | Ok _ => Ok tt
  | Raise e => Raise e
  end.

(** Every label on the pages is a stage name. *)
Definition well_labelled (self : StageField) (ps : list Page) : Prop :=
  ∀ p s, p ∈ ps → page_label self p = Some s → s ∈ stages self.

(** The field of the defaults, and flipbooks to run it on. *)
Definition default_field : StageField :=
  built default_name default_stages default_transitions
    ["h"; "a"; "d"]%string "egg" "dead" 0.

Definition labelled (nm s : string) : Page :=
  {| annotations := {[nm := s]}; color := None |}.

Definition five_unset : World :=
  {| pages := replicate 5 blank_page; page := 2%nat; label := EmptyString |}.

Definition three_mixed : World :=
  {| pages := [blank_page; labelled default_name "adult"; blank_page];
     page := 0%nat; label := EmptyString |}.

(** A stage index that [update_widget] can hold in [oldest_stage_i]: the
    initial [-1], or the index of a stage name. *)
Definition seen_index (self : StageField) (o : Z) : Prop :=
  o = -1 ∨ ∃ s, stage_indices self !! s = Some o.


(** ** init_widget *)

(** What [init_widget] builds for one transition: a push button showing
    the transition's name, a keyboard shortcut, and the callback both are
    bound to, which is determined by the stage it sets. *)
Record Button : Type := {
  transition_name : string;
  shortcut_key : string;
  callback_stage : string
}.

(** [zip(a, b, c)]: stops with the shortest of the three. *)
Fixpoint zip3 {A B C} (a : list A) (b : list B) (c : list C) : list (A * B * C) :=
  match a, b, c with
  | x :: a', y :: b', z :: c' => (x, y, z) :: zip3 a' b' c'
  | _, _, _ => []
  end.

(** [_make_transition_callback]: the callback calls [set_stage] with the
    stage captured when it was made. *)
Definition _make_transition_callback (self : StageField) (next_stage : string)
    : M World unit :=
  set_stage self next_stage.

(** The buttons [init_widget] adds to the layout, in order.  The Qt
    widgets themselves are outside the embedding. *)
Definition init_widget (self : StageField) : list Button :=
  (λ tkn : string * string * string,
     {| transition_name := tkn.1.1; shortcut_key := tkn.1.2; callback_stage := tkn.2 |})
  <$> zip3 (transitions self) (shortcuts self) (Py.slice_1 (stages self)).

(** A click on a button, or its shortcut, with the page at position [cur]
    current. *)
Definition click (self : StageField) (cur : nat) (b : Button) : M World unit :=
  modify (λ w, {| pages := pages w; page := cur; label := label w |});;
  _make_transition_callback self (callback_stage b).

Fixpoint click_all (self : StageField) (clicks : list (nat * Button)) : M World unit :=
  match clicks with
  | [] => mret tt
  | cb :: clicks' => click self cb.1 cb.2;; click_all self clicks'
  end.

(** The flipbook between the two passes of [set_stage]: the pages before
    the current one as the backward pass leaves them, the current page with
    the target, the later pages as they were. *)
Definition after_backward (self : StageField) (t : nat) (target : string)
    (cur : nat) (p : Page) (ps : list Page) : list Page :=
  rev (backward_pass_spec self (t - 1) (rev (take cur ps)))
  ++ relabel self target p :: drop (S cur) ps.

(** The colour [update_widget] gives a page carrying a given label. *)
Definition label_color (self : StageField) (page_stage : option string) : option Color :=
  match page_stage with
  | None => None
  | Some s => colors self !! s
  end.

(** * Properties *)

(** ** The monad and the loops over pages *)

Ltac munfold :=
  unfold mbind, M_bind, mret, M_ret, lift, raise, gets, modify in *.

Lemma bind_run {S A B} (m : M S A) (f : A → M S B) (s : S) :
  (m ≫= f) s =
  match m s with
  | (s', Ok a) => f a s'
  | (s', Raise e) => (s', Raise e)
  end.
Proof. reflexivity. Qed.

Lemma set_pages_id (w : World) : set_pages w (pages w) = w.
Proof. by destruct w. Qed.

Lemma at_page_middle {A} (m : M Page A) (w : World) (pre post : list Page) (p : Page) :
  pages w = pre ++ p :: post →
  at_page (length pre) m w = (set_pages w (pre ++ (m p).1 :: post), (m p).2).
Proof.
  intros Hw. unfold at_page. rewrite Hw, list_lookup_middle by done.
  destruct (m p) as [p' r]. simpl. do 2 f_equal.
  replace (length pre) with (length pre + 0)%nat at 1 by lia.
  by rewrite insert_app_r.
Qed.

Lemma traverse_length {L} (step : L → M Page L) (acc : L) (ps : list Page) :
  length (traverse step acc ps).1 = length ps.
Proof.
  revert acc. induction ps as [|p ps IH]; intros acc; simpl; [done|].
  destruct (step acc p) as [p' [acc'|e]]; simpl; [|done].
  specialize (IH acc'). destruct (traverse step acc' ps). simpl in *. by rewrite IH.
Qed.

(** The forward loop [for page in pages] is a traversal of the pages. *)
Lemma for_in_seq {L} (step : L → M Page L) (mid pre post : list Page) (acc : L) (w : World) :
  pages w = pre ++ mid ++ post →
  for_in (seq (length pre) (length mid)) acc (λ i a, at_page i (step a)) w =
  (set_pages w (pre ++ (traverse step acc mid).1 ++ post), (traverse step acc mid).2).
Proof.
  revert pre acc w. induction mid as [|p mid IH]; intros pre acc w Hw.
  - simpl in *. rewrite <- Hw. by rewrite set_pages_id.
  - simpl. rewrite bind_run. rewrite (at_page_middle _ w pre (mid ++ post) p) by done.
    destruct (step acc p) as [p' [acc'|e]]; simpl; [|done].
    specialize (IH (pre ++ [p']) acc' (set_pages w (pre ++ p' :: mid ++ post))).
    rewrite length_app in IH. simpl in IH.
    replace (length pre + 1)%nat with (S (length pre)) in IH by lia.
    rewrite IH by (simpl; by rewrite <- app_assoc).
    destruct (traverse step acc' mid) as [mid' r]. simpl.
    by rewrite <- app_assoc.
Qed.

(** The backward loop, over [pages[n-1::-1]], is a traversal of the first
    [n] pages in reverse. *)
Lemma for_in_rev_seq {L} (step : L → M Page L) (mid post : list Page) (acc : L) (w : World) :
  pages w = mid ++ post →
  for_in (rev (seq 0 (length mid))) acc (λ i a, at_page i (step a)) w =
  (set_pages w (rev (traverse step acc (rev mid)).1 ++ post),
   (traverse step acc (rev mid)).2).
Proof.
  revert post acc w. induction mid as [|p mid IH] using rev_ind; intros post acc w Hw.
  - simpl in *. rewrite <- Hw. by rewrite set_pages_id.
  - rewrite length_app. simpl. replace (length mid + 1)%nat with (S (length mid)) by lia.
    rewrite seq_S, rev_app_distr, rev_app_distr. simpl.
    rewrite bind_run. rewrite <- app_assoc in Hw. simpl in Hw.
    rewrite (at_page_middle _ w mid post p) by done.
    destruct (step acc p) as [p' [acc'|e]]; simpl.
    + rewrite (IH (p' :: post) acc') by done.
      destruct (traverse step acc' (rev mid)) as [mid' r]. simpl.
      by rewrite <- app_assoc.
    + rewrite rev_involutive. by rewrite <- app_assoc.
Qed.

Lemma slice_down_prefix (n : nat) (i : Z) :
  0 < i < Z.of_nat n → Py.slice_down n (i - 1) = rev (seq 0 (Z.to_nat i)).
Proof.
  intros Hi. unfold Py.slice_down.
  destruct (Z.ltb_spec (i - 1) 0); [lia|].
  rewrite Z.min_l by lia.
  destruct (Z.ltb_spec (i - 1) 0); [lia|].
  by replace (S (Z.to_nat (i - 1))) with (Z.to_nat i) by lia.
Qed.

(** ** The stage index dictionary *)

Lemma position_snoc (l : list string) (x s : string) :
  position (l ++ [x]) s =
  if decide (x = s) then Some (length l) else position l s.
Proof.
  induction l as [|y l IH]; simpl.
  - by destruct (decide (x = s)).
  - rewrite IH. destruct (decide (x = s)); [done|].
    by destruct (position l s).
Qed.

Lemma make_stage_indices_snoc (l : list string) (x : string) :
  make_stage_indices (l ++ [x]) = <[x := Z.of_nat (length l)]> (make_stage_indices l).
Proof.
  unfold make_stage_indices, Py.enumerate.
  rewrite imap_app, foldl_app. simpl. by rewrite Nat.add_0_r.
Qed.

Lemma make_stage_indices_lookup (l : list string) (s : string) :
  make_stage_indices l !! s = Z.of_nat <$> position l s.
Proof.
  induction l as [|x l IH] using rev_ind; [done|].
  rewrite make_stage_indices_snoc, position_snoc, lookup_insert.
  by destruct (decide (x = s)).
Qed.

Lemma position_Some (l : list string) (s : string) (i : nat) :
  position l s = Some i → l !! i = Some s.
Proof.
  revert i. induction l as [|x l IH]; intros i; simpl; [done|].
  destruct (position l s) as [j|].
  - intros [= <-]. simpl. by apply IH.
  - destruct (decide (x = s)); [|done]. intros [= <-]. simpl. by subst.
Qed.

Lemma position_last (l : list string) (s : string) (k : nat) :
  l !! k = Some s → ∃ i, position l s = Some i ∧ (k ≤ i)%nat.
Proof.
  revert k. induction l as [|x l IH]; intros k; simpl; [done|].
  destruct k as [|k]; simpl.
  - intros [= ->]. destruct (position l s) as [j|].
    + exists (S j). split; [done|lia].
    + exists 0%nat. by rewrite decide_True.
  - intros Hk. destruct (IH k Hk) as (i & -> & Hle). exists (S i). split; [done|lia].
Qed.

Lemma position_nodup (l : list string) (s : string) (k : nat) :
  NoDup l → l !! k = Some s → position l s = Some k.
Proof.
  intros Hnd Hk. destruct (position_last l s k Hk) as (i & Hi & _).
  rewrite Hi. f_equal. apply position_Some in Hi.
  by eapply NoDup_lookup.
Qed.

(** ** Dictionaries *)

Lemma dict_update_notin {V} (d : gmap string V) (kvs : list (string * V)) (s : string) :
  s ∉ kvs.*1 → Py.dict_update d kvs !! s = d !! s.
Proof.
  revert d. induction kvs as [|[k v] kvs IH]; intros d Hs; [done|].
  simpl in *. apply not_elem_of_cons in Hs as [Hne Hs].
  unfold Py.dict_update in *. simpl. rewrite IH by done.
  by rewrite lookup_insert_ne.
Qed.

Lemma dict_update_in {V} (d : gmap string V) (kvs : list (string * V)) (s : string) (v : V) :
  NoDup kvs.*1 → (s, v) ∈ kvs → Py.dict_update d kvs !! s = Some v.
Proof.
  revert d. induction kvs as [|[k v'] kvs IH]; intros d Hnd Hin.
  - by apply elem_of_nil in Hin.
  - simpl in Hnd. apply NoDup_cons in Hnd as [Hk Hnd].
    apply elem_of_cons in Hin as [[= <- <-]|Hin].
    + change (Py.dict_update (<[s := v]> d) kvs !! s = Some v).
      rewrite dict_update_notin by done. by rewrite lookup_insert_eq.
    + change (Py.dict_update (<[k := v']> d) kvs !! s = Some v). by apply IH.
Qed.

Lemma dict_update_is_Some {V} (d : gmap string V) (kvs : list (string * V)) (s : string) :
  is_Some (d !! s) ∨ s ∈ kvs.*1 → is_Some (Py.dict_update d kvs !! s).
Proof.
  revert d. induction kvs as [|[k v] kvs IH]; intros d Hs.
  - destruct Hs as [Hs|Hs]; [done|]. by apply elem_of_nil in Hs.
  - change (is_Some (Py.dict_update (<[k := v]> d) kvs !! s)). apply IH.
    destruct (decide (k = s)) as [->|Hne].
    + left. rewrite lookup_insert_eq. by eexists.
    + destruct Hs as [Hs|Hs].
      * left. by rewrite lookup_insert_ne.
      * right. simpl in Hs. apply elem_of_cons in Hs as [Hs|Hs]; [congruence|done].
Qed.

(** ** The constructor *)

Lemma zip_COLOR_CYCLE_run (keys : list string) (k : nat) :
  zip_COLOR_CYCLE keys k =
  ((k + length keys)%nat, Ok (zip keys (cycle_at <$> seq k (length keys)))).
Proof.
  revert k. induction keys as [|s keys IH]; intros k; simpl.
  - munfold. by rewrite Nat.add_0_r.
  - rewrite bind_run. unfold COLOR_CYCLE_next. rewrite bind_run, IH.
    munfold. f_equal. lia.
Qed.

Lemma getitem_in_range {A} (l : list A) (i : Z) (x : A) :
  0 ≤ i → l !! Z.to_nat i = Some x → Py.getitem l i = Ok x.
Proof.
  intros Hi Hx. unfold Py.getitem.
  pose proof (lookup_lt_Some _ _ _ Hx) as Hlt.
  destruct (Z.ltb_spec i 0); [lia|].
  destruct (Z.leb_spec 0 i); [|lia].
  destruct (Z.ltb_spec i (Z.of_nat (length l))); [|lia].
  simpl. by rewrite Hx.
Qed.

Lemma getitem_last {A} (l : list A) (x : A) :
  last l = Some x → Py.getitem l (-1) = Ok x.
Proof.
  intros Hx. rewrite last_lookup in Hx.
  pose proof (lookup_lt_Some _ _ _ Hx) as Hlt.
  unfold Py.getitem. simpl.
  destruct (Z.leb_spec 0 (-1 + Z.of_nat (length l))); [|lia].
  destruct (Z.ltb_spec (-1 + Z.of_nat (length l)) (Z.of_nat (length l))); [|lia].
  simpl. replace (Z.to_nat (-1 + Z.of_nat (length l))) with (pred (length l)) by lia.
  by rewrite Hx.
Qed.

Lemma init_run (nm : string) (S0 T : list string) (sc : option (list string)) (k : nat) :
  Z.of_nat (length T) = Z.of_nat (length S0) - 1 →
  ∃ s_first s_last,
    S0 !! 0%nat = Some s_first ∧ last S0 = Some s_last ∧
    __init__ nm S0 T sc k =
    match shortcuts_or_default sc T with
    | Ok scs => ((k + length (Py.slice_1_m1 S0))%nat,
                 Ok (built nm S0 T scs s_first s_last k))
    | Raise e => (k, Raise e)
    end.
Proof.
  intros Hlen.
  assert (∃ s_first, S0 !! 0%nat = Some s_first) as [s_first Hf].
  { destruct S0; simpl in *; [lia|by eexists]. }
  assert (∃ s_last, last S0 = Some s_last) as [s_last Hl].
  { rewrite last_lookup. apply lookup_lt_is_Some_2. destruct S0; simpl in *; lia. }
  exists s_first, s_last. split; [done|]. split; [done|].
  unfold __init__. rewrite bind_run, decide_True by done.
  change ((mret tt : M nat unit) k) with (k, Ok tt). cbv beta iota.
  rewrite bind_run.
  assert (match sc with
          | Some sc0 => mret sc0
          | None => lift (first_letters T)
          end k = (k, shortcuts_or_default sc T)) as -> by by destruct sc.
  destruct (shortcuts_or_default sc T) as [scs|e]; [|done].
  rewrite bind_run. unfold lift at 1.
  rewrite (getitem_in_range S0 0 s_first) by done.
  rewrite bind_run. unfold lift at 1. rewrite (getitem_last S0 s_last) by done.
  rewrite bind_run, zip_COLOR_CYCLE_run. by munfold.
Qed.

Lemma init_assert (nm : string) (S0 T : list string) (sc : option (list string)) (k : nat) :
  Z.of_nat (length T) ≠ Z.of_nat (length S0) - 1 →
  __init__ nm S0 T sc k = (k, Raise AssertionError).
Proof.
  intros Hlen. unfold __init__. rewrite bind_run, decide_False by done. by munfold.
Qed.

Lemma init_inv (nm : string) (S0 T : list string) (sc : option (list string))
    (k k' : nat) (self : StageField) :
  __init__ nm S0 T sc k = (k', Ok self) →
  ∃ scs s_first s_last,
    Z.of_nat (length T) = Z.of_nat (length S0) - 1 ∧
    shortcuts_or_default sc T = Ok scs ∧
    S0 !! 0%nat = Some s_first ∧ last S0 = Some s_last ∧
    k' = (k + length (Py.slice_1_m1 S0))%nat ∧
    self = built nm S0 T scs s_first s_last k.
Proof.
  intros Hinit.
  destruct (decide (Z.of_nat (length T) = Z.of_nat (length S0) - 1)) as [Hlen|Hlen].
  - destruct (init_run nm S0 T sc k Hlen) as (s_first & s_last & Hf & Hl & Hrun).
    rewrite Hrun in Hinit.
    destruct (shortcuts_or_default sc T) as [scs|e]; [|done].
    injection Hinit as <- <-. by exists scs, s_first, s_last.
  - by rewrite init_assert in Hinit.
Qed.

(** ** Strings by code point *)

Lemma code_points_concat (s : string) :
  foldr String.append EmptyString (Py.code_points s) = s.
Proof.
  unfold Py.code_points.
  assert (String.append (Py.split_code_points s).1
            (foldr String.append EmptyString (Py.split_code_points s).2) = s) as Hsplit.
  { induction s as [|c s IH]; simpl; [done|].
    destruct (Py.split_code_points s) as [cont cps]. simpl in *.
    destruct (Py.is_continuation c); simpl;
      change (String c (String.append cont (foldr String.append EmptyString cps))
              = String c s);
      by rewrite IH. }
  destruct (Py.split_code_points s) as [[|c cont] cps]; simpl in *; done.
Qed.

Lemma code_points_nonempty (c : ascii) (s : string) :
  ∃ x cps, x ≠ EmptyString ∧ Py.code_points (String c s) = x :: cps.
Proof.
  unfold Py.code_points. simpl.
  destruct (Py.split_code_points s) as [cont cps].
  exists (String c cont), cps. by destruct (Py.is_continuation c).
Qed.

Lemma str_first_empty : Py.str_first EmptyString = Raise IndexError.
Proof. reflexivity. Qed.

(** [s[0]] of a non-empty [str] is defined, is not empty, and [s] starts
    with it. *)
Lemma str_first_nonempty (s : string) :
  s ≠ EmptyString →
  ∃ x rest, Py.str_first s = Ok x ∧ x ≠ EmptyString ∧ s = String.append x rest.
Proof.
  intros Hs. destruct s as [|c s]; [done|].
  destruct (code_points_nonempty c s) as (x & cps & Hx & Hcps).
  exists x, (foldr String.append EmptyString cps). split; [|split; [done|]].
  - unfold Py.str_first. rewrite Hcps. reflexivity.
  - by rewrite <- (code_points_concat (String c s)), Hcps.
Qed.

(** On a [str] that starts with an ASCII character followed by the start
    of another character, [s[0]] is that one byte. *)
Lemma str_first_ascii (c : ascii) (s : string) :
  Py.is_continuation c = false →
  match s with String c' _ => Py.is_continuation c' = false | EmptyString => True end →
  Py.str_first (String c s) = Ok (String c EmptyString).
Proof.
  intros Hc Hs. unfold Py.str_first, Py.code_points. simpl.
  destruct s as [|c' s]; simpl.
  - by rewrite Hc.
  - destruct (Py.split_code_points s) as [cont cps]. by rewrite Hs, Hc.
Qed.

(** A character outside ASCII is taken whole. *)
Example str_first_accent :
  Py.str_first "éclore" = Ok "é"%string ∧ Py.str_first "hatch" = Ok "h"%string ∧
  Py.code_points "œuf" = ["œ"; "u"; "f"]%string.
Proof. repeat split. Qed.

Lemma first_letters_Ok (T scs : list string) :
  first_letters T = Ok scs →
  length scs = length T ∧
  ∀ (i : nat) (t : string), T !! i = Some t →
    ∃ c, Py.str_first t = Ok c ∧ scs !! i = Some c.
Proof.
  revert scs. induction T as [|t0 T IH]; intros scs; simpl.
  - intros [= <-]. by split.
  - destruct (Py.str_first t0) as [c0|e] eqn:Hc; [|done].
    destruct (first_letters T) as [cs|e]; [|done].
    intros [= <-]. destruct (IH cs eq_refl) as [Hlen Hall]. split; [simpl; by rewrite Hlen|].
    intros [|i] t; simpl.
    + intros [= <-]. by exists c0.
    + apply Hall.
Qed.

Lemma first_letters_nonempty (T : list string) :
  Forall (λ t, t ≠ EmptyString) T → ∃ scs, first_letters T = Ok scs.
Proof.
  induction 1 as [|t T Ht _ [scs IH]]; simpl; [by eexists|].
  destruct (str_first_nonempty t Ht) as (x & rest & -> & _). rewrite IH. by eexists.
Qed.

Lemma first_letters_empty (T : list string) :
  EmptyString ∈ T → first_letters T = Raise IndexError.
Proof.
  induction T as [|t T IH]; intros Hin; [by apply elem_of_nil in Hin|].
  simpl. destruct (decide (t = EmptyString)) as [->|Ht]; [done|].
  destruct (str_first_nonempty t Ht) as (x & rest & -> & _).
  apply elem_of_cons in Hin as [?|Hin]; [done|]. by rewrite IH.
Qed.

Lemma stages_split (S0 : list string) (a b : string) :
  (2 ≤ length S0)%nat → S0 !! 0%nat = Some a → last S0 = Some b →
  S0 = a :: Py.slice_1_m1 S0 ++ [b].
Proof.
  intros Hlen Ha Hb. apply last_Some in Hb as [l' ->].
  destruct l' as [|a' l']; [simpl in Hlen; lia|].
  simpl in Ha. injection Ha as ->.
  unfold Py.slice_1_m1. simpl. rewrite length_app. simpl.
  replace (length l' + 1 - 0)%nat with (S (length l')) by lia.
  simpl. by rewrite take_app_length.
Qed.

Lemma cycle_at_lookup (k : nat) :
  COLOR_CYCLE_items !! (k mod length COLOR_CYCLE_items)%nat = Some (cycle_at k).
Proof.
  unfold cycle_at.
  destruct (lookup_lt_is_Some_2 COLOR_CYCLE_items (k mod length COLOR_CYCLE_items)%nat)
    as [c Hc]; [by apply Nat.mod_upper_bound|].
  by rewrite Hc.
Qed.

Lemma built_colors_is_Some (nm : string) (S0 T scs : list string) (a b : string)
    (k : nat) (s : string) :
  S0 !! 0%nat = Some a → last S0 = Some b → s ∈ S0 →
  is_Some (colors (built nm S0 T scs a b k) !! s).
Proof.
  intros Ha Hb Hs. simpl. apply dict_update_is_Some.
  destruct (decide (s = b)) as [->|Hsb].
  { left. rewrite lookup_insert_eq. by eexists. }
  destruct (decide (s = a)) as [->|Hsa].
  { left. rewrite lookup_insert_ne, lookup_insert_eq by done. by eexists. }
  right. rewrite fst_zip by (by rewrite length_fmap, length_seq).
  destruct (decide (2 ≤ length S0)%nat) as [Hlen|Hlen].
  - rewrite (stages_split S0 a b Hlen Ha Hb) in Hs.
    apply elem_of_cons in Hs as [?|Hs]; [done|].
    apply elem_of_app in Hs as [Hs|Hs]; [done|].
    apply list_elem_of_singleton in Hs. done.
  - destruct S0 as [|x [|y S0]]; simpl in *; [done| |lia].
    injection Ha as ->. apply list_elem_of_singleton in Hs. done.
Qed.

(** ** Construction: the claims *)

(** C7, as stated, fails: the stage and transition lists have matching
    lengths, yet with no shortcut list given the empty transition name makes
    [transition[0]] raise [IndexError], and construction does not succeed. *)
Lemma C7_empty_transition_name :
  Z.of_nat (length [EmptyString]) = Z.of_nat (length ["egg"; "larva"]%string) - 1 ∧
  __init__ default_name ["egg"; "larva"]%string [EmptyString] None 0%nat
  = (0%nat, Raise IndexError).
Proof. split; [reflexivity|]. vm_compute. reflexivity. Qed.

(** C7, amended.  When [len(transitions) == len(stages) - 1], construction
    succeeds if a shortcut list is given or no transition name is empty, and
    raises [IndexError] if no shortcut list is given and some transition
    name is empty.  For every other length relationship the assertion fails
    at once: [AssertionError] is raised, no field is returned and the colour
    cycle has not been advanced. *)
Theorem C7_construction (nm : string) (S0 T : list string)
    (sc : option (list string)) (k : nat) :
  (Z.of_nat (length T) = Z.of_nat (length S0) - 1 →
   (sc = None → Forall (λ t, t ≠ EmptyString) T) →
   ∃ self k', __init__ nm S0 T sc k = (k', Ok self)) ∧
  (Z.of_nat (length T) = Z.of_nat (length S0) - 1 →
   sc = None → EmptyString ∈ T →
   __init__ nm S0 T sc k = (k, Raise IndexError)) ∧
  (Z.of_nat (length T) ≠ Z.of_nat (length S0) - 1 →
   __init__ nm S0 T sc k = (k, Raise AssertionError)).
Proof.
  split; [|split].
  - intros Hlen Hsc.
    destruct (init_run nm S0 T sc k Hlen) as (a & b & _ & _ & ->).
    assert (∃ scs, shortcuts_or_default sc T = Ok scs) as [scs ->].
    { destruct sc as [l|]; [by exists l|]. by apply first_letters_nonempty, Hsc. }
    by eexists _, _.
  - intros Hlen -> Hin.
    destruct (init_run nm S0 T None k Hlen) as (a & b & _ & _ & ->).
    simpl. by rewrite first_letters_empty.
  - apply init_assert.
Qed.

Lemma C7_construction_witness :
  (∃ self k', __init__ default_name default_stages default_transitions None 0%nat
              = (k', Ok self)) ∧
  __init__ default_name default_stages ["hatch"; "adult"]%string None 0%nat
  = (0%nat, Raise AssertionError).
Proof.
  split.
  - apply (C7_construction default_name default_stages default_transitions None 0%nat).
    + reflexivity.
    + intros _. repeat constructor; discriminate.
  - apply (C7_construction default_name default_stages ["hatch"; "adult"]%string None 0%nat).
    vm_compute. discriminate.
Defined.

(** C8, as stated, fails: for a one-stage list the first stage is also the
    last one, and the dictionary display binds it to the last colour. *)
Lemma C8_single_stage :
  ∃ self k', __init__ default_name ["egg"]%string [] None 0%nat = (k', Ok self) ∧
    stages self !! 0%nat = Some "egg"%string ∧
    colors self !! "egg"%string = Some LAST_COLOR ∧
    colors self !! "egg"%string ≠ Some FIRST_COLOR.
Proof. eexists _, _. vm_compute. repeat split. discriminate. Qed.

(** C8, amended.  For a stage list of at least two pairwise distinct names,
    the colour mapping built at construction maps the first stage to
    [FIRST_COLOR], the last stage to [LAST_COLOR] and the interior stage at
    position [i] to the palette entry [(k + i - 1) mod 5], where [k] is the
    number of colours already drawn from the class-level cycle ([0] for the
    first field of a run); [len(stages) - 2] colours are drawn.  The mapping
    depends on the stage list and on [k] only. *)
Theorem C8_colors (nm : string) (S0 T : list string) (sc : option (list string))
    (k k' : nat) (self : StageField) :
  __init__ nm S0 T sc k = (k', Ok self) →
  NoDup S0 → (2 ≤ length S0)%nat →
  (∀ s, S0 !! 0%nat = Some s → colors self !! s = Some FIRST_COLOR) ∧
  (∀ s, last S0 = Some s → colors self !! s = Some LAST_COLOR) ∧
  (∀ (i : nat) s, (1 ≤ i < length S0 - 1)%nat → S0 !! i = Some s →
     colors self !! s
     = COLOR_CYCLE_items !! ((k + (i - 1)) mod length COLOR_CYCLE_items)%nat) ∧
  k' = (k + (length S0 - 2))%nat ∧
  (∀ nm2 T2 sc2 k2 self2,
     __init__ nm2 S0 T2 sc2 k = (k2, Ok self2) → colors self2 = colors self).
Proof.
  intros Hinit Hnd Hlen.
  destruct (init_inv _ _ _ _ _ _ _ Hinit) as (scs & a & b & _ & _ & Ha & Hb & -> & ->).
  pose proof (stages_split S0 a b Hlen Ha Hb) as Hsplit.
  remember (Py.slice_1_m1 S0) as mid eqn:Hmid.
  assert (length S0 = S (length mid + 1)) as HlenS.
  { rewrite Hsplit at 1. simpl. by rewrite length_app. }
  rewrite Hsplit in Hnd. apply NoDup_cons in Hnd as [Ha_notin Hnd].
  apply NoDup_app in Hnd as (Hnd_mid & Hmid_b & _).
  assert ((a ∉ mid) ∧ a ≠ b) as [Ha_mid Hab].
  { split; intros ?; apply Ha_notin, elem_of_app; [by left|right].
    subst. by apply list_elem_of_singleton. }
  assert (b ∉ mid) as Hb_mid.
  { intros ?. eapply Hmid_b; [done|]. by apply list_elem_of_singleton. }
  assert ((zip mid (cycle_at <$> seq k (length mid))).*1 = mid) as Hfst.
  { apply fst_zip. by rewrite length_fmap, length_seq. }
  split; [|split; [|split; [|split]]].
  - intros s Hs. rewrite Ha in Hs. injection Hs as <-. simpl. rewrite <- Hmid.
    rewrite dict_update_notin by by rewrite Hfst.
    by rewrite lookup_insert_ne, lookup_insert_eq.
  - intros s Hs. rewrite Hb in Hs. injection Hs as <-. simpl. rewrite <- Hmid.
    rewrite dict_update_notin by by rewrite Hfst.
    by rewrite lookup_insert_eq.
  - intros i s Hi Hs. rewrite cycle_at_lookup. simpl. rewrite <- Hmid.
    apply dict_update_in; [by rewrite Hfst|].
    apply list_elem_of_lookup. exists (i - 1)%nat. apply lookup_zip_Some.
    rewrite Hsplit in Hs. destruct i as [|i]; [lia|]. simpl in Hs.
    rewrite lookup_app_l in Hs by lia.
    replace (S i - 1)%nat with i by lia. split; [done|].
    rewrite list_lookup_fmap, lookup_seq_lt by lia. done.
  - lia.
  - intros nm2 T2 sc2 k2 self2 Hinit2.
    destruct (init_inv _ _ _ _ _ _ _ Hinit2) as (scs2 & a2 & b2 & _ & _ & Ha2 & Hb2 & _ & ->).
    rewrite Ha in Ha2. rewrite Hb in Hb2. by simplify_eq.
Qed.

Lemma C8_colors_witness :
  ∃ self, __init__ default_name default_stages default_transitions None 0%nat
          = (2%nat, Ok self) ∧
    colors self !! "egg"%string = Some FIRST_COLOR ∧
    colors self !! "dead"%string = Some LAST_COLOR ∧
    colors self !! "larva"%string = Some (184, 255, 184) ∧
    colors self !! "adult"%string = Some (255, 255, 184).
Proof.
  destruct (__init__ default_name default_stages default_transitions None 0%nat)
    as [k' [self|e]] eqn:Hinit; [|vm_compute in Hinit; discriminate].
  assert (k' = 2%nat) as -> by (vm_compute in Hinit; congruence).
  exists self. split; [reflexivity|].
  destruct (C8_colors default_name default_stages default_transitions None 0%nat 2%nat
              self Hinit) as (Hf & Hl & Hi & _).
  - apply (bool_decide_unpack _). vm_compute. exact I.
  - simpl. lia.
  - split; [by apply Hf|]. split; [by apply Hl|].
    split; [by apply (Hi 1%nat); [simpl; lia|]|by apply (Hi 2%nat); [simpl; lia|]].
Defined.

(** C9.  When construction is given no shortcut list, the field's
    shortcuts are, position by position, the first letters of its
    transitions: [shortcut[i] == transition[i][0]] for every index [i],
    where [transition[i][0]] is the first code point of the name, a
    non-empty start of it. *)
Theorem C9_default_shortcuts (nm : string) (S0 T : list string) (k k' : nat)
    (self : StageField) :
  __init__ nm S0 T None k = (k', Ok self) →
  transitions self = T ∧
  length (shortcuts self) = length T ∧
  ∀ (i : nat) (t : string), transitions self !! i = Some t →
    ∃ c rest, Py.str_first t = Ok c ∧ shortcuts self !! i = Some c ∧
              c ≠ EmptyString ∧ t = String.append c rest.
Proof.
  intros Hinit.
  destruct (init_inv _ _ _ _ _ _ _ Hinit) as (scs & a & b & _ & Hsc & _ & _ & _ & ->).
  simpl in *. split; [done|].
  destruct (first_letters_Ok _ _ Hsc) as [Hlen Hall]. split; [done|].
  intros i t Ht. destruct (Hall i t Ht) as (c & Hc & Hs).
  assert (t ≠ EmptyString) as Hne by (intros ->; by rewrite str_first_empty in Hc).
  destruct (str_first_nonempty t Hne) as (x & rest & Hx & Hxne & Hpre).
  rewrite Hc in Hx. injection Hx as <-. by exists c, rest.
Qed.

Lemma C9_default_shortcuts_witness :
  ∃ self, __init__ default_name ["egg"; "larva"; "adult"]%string
            ["éclore"; "adult"]%string None 0%nat = (1%nat, Ok self) ∧
    shortcuts self !! 0%nat = Some "é"%string ∧
    shortcuts self !! 1%nat = Some "a"%string.
Proof.
  destruct (__init__ default_name ["egg"; "larva"; "adult"]%string
              ["éclore"; "adult"]%string None 0%nat)
    as [k' [self|e]] eqn:Hinit; [|vm_compute in Hinit; discriminate].
  assert (k' = 1%nat) as -> by (vm_compute in Hinit; congruence).
  exists self. split; [reflexivity|].
  destruct (C9_default_shortcuts default_name ["egg"; "larva"; "adult"]%string
              ["éclore"; "adult"]%string 0%nat 1%nat self Hinit) as (HT & _ & Hall).
  split.
  - destruct (Hall 0%nat "éclore"%string) as (c & rest & Hc & Hs & _); [by rewrite HT|].
    vm_compute in Hc. by injection Hc as <-.
  - destruct (Hall 1%nat "adult"%string) as (c & rest & Hc & Hs & _); [by rewrite HT|].
    vm_compute in Hc. by injection Hc as <-.
Defined.

(** ** What construction guarantees *)

Lemma dict_update_is_Some_inv {V} (d : gmap string V) (kvs : list (string * V)) (s : string) :
  is_Some (Py.dict_update d kvs !! s) → is_Some (d !! s) ∨ s ∈ kvs.*1.
Proof.
  revert d. induction kvs as [|[k v] kvs IH]; intros d Hs; [by left|].
  change (is_Some (Py.dict_update (<[k := v]> d) kvs !! s)) in Hs.
  apply IH in Hs as [Hs|Hs].
  - destruct (decide (k = s)) as [->|Hne].
    + right. simpl. by left.
    + left. by rewrite lookup_insert_ne in Hs.
  - right. simpl. by right.
Qed.

Lemma init_wf (nm : string) (S0 T : list string) (sc : option (list string))
    (k k' : nat) (self : StageField) :
  __init__ nm S0 T sc k = (k', Ok self) → wf_field self ∧ stages self = S0.
Proof.
  intros Hinit.
  destruct (init_inv _ _ _ _ _ _ _ Hinit) as (scs & a & b & _ & _ & Ha & Hb & _ & ->).
  split; [|done]. split; [done|]. intros s. split.
  - intros Hs. simpl in *. apply dict_update_is_Some_inv in Hs as [Hs|Hs].
    + destruct (decide (b = s)) as [<-|Hbs]; [by apply last_Some_elem_of|].
      rewrite lookup_insert_ne in Hs by done.
      destruct (decide (a = s)) as [<-|Has]; [by eapply list_elem_of_lookup_2|].
      rewrite lookup_insert_ne, lookup_empty in Hs by done. by destruct Hs.
    + rewrite fst_zip in Hs by (by rewrite length_fmap, length_seq).
      unfold Py.slice_1_m1 in Hs.
      eapply (subseteq_drop 1), (subseteq_take (length S0 - 1)) in Hs. done.
  - by apply built_colors_is_Some.
Qed.

Section field.
Variable self : StageField.
Hypothesis Hwf : wf_field self.

Lemma idx_position (s : string) :
  stage_indices self !! s = Z.of_nat <$> position (stages self) s.
Proof. destruct Hwf as [-> _]. apply make_stage_indices_lookup. Qed.

Lemma idx_range (s : string) (i : Z) :
  stage_indices self !! s = Some i →
  0 ≤ i < Z.of_nat (length (stages self)) ∧ stages self !! Z.to_nat i = Some s.
Proof.
  rewrite idx_position. destruct (position (stages self) s) as [n|] eqn:Hn; [|done].
  intros [= <-]. apply position_Some in Hn. rewrite Nat2Z.id. split; [|done].
  apply lookup_lt_Some in Hn. lia.
Qed.

Lemma idx_of_stage (s : string) (n : nat) :
  stages self !! n = Some s →
  ∃ i, stage_indices self !! s = Some i ∧ Z.of_nat n ≤ i.
Proof.
  intros Hn. destruct (position_last _ _ _ Hn) as (i & Hi & Hle).
  exists (Z.of_nat i). rewrite idx_position, Hi. split; [done|lia].
Qed.

Lemma idx_getitem (s : string) (i : Z) :
  stage_indices self !! s = Some i → Py.getitem (stages self) i = Ok s.
Proof. intros Hi. apply idx_range in Hi as [? ?]. apply getitem_in_range; [lia|done]. Qed.

Lemma idx_color (s : string) (i : Z) :
  stage_indices self !! s = Some i → is_Some (colors self !! s).
Proof.
  intros Hi. apply idx_range in Hi as [_ Hs]. apply Hwf. by eapply list_elem_of_lookup_2.
Qed.

Lemma color_idx (s : string) :
  is_Some (colors self !! s) → is_Some (stage_indices self !! s).
Proof.
  intros Hs. apply Hwf in Hs. apply list_elem_of_lookup_1 in Hs as [n Hn].
  destruct (idx_of_stage _ _ Hn) as (i & Hi & _). by eexists.
Qed.

Lemma forward_position_cases (p : Page) :
  (forward_position self p = -1 ∧
   ∀ s, page_label self p = Some s → stage_indices self !! s = None) ∨
  (0 ≤ forward_position self p ∧
   ∃ s, page_label self p = Some s ∧
        stage_indices self !! s = Some (forward_position self p)).
Proof.
  unfold forward_position, Py.dict_get.
  destruct (page_label self p) as [s|]; [|left; by split].
  destruct (stage_indices self !! s) as [i|] eqn:Hi; simpl.
  - right. split; [by apply idx_range in Hi as [? _]; lia|]. by exists s.
  - left. split; [done|]. by intros ? [= <-].
Qed.

Lemma seen_index_ge (o : Z) : seen_index self o → -1 ≤ o.
Proof. intros [->|[s Hs]]; [lia|]. apply idx_range in Hs. lia. Qed.

(** ** One iteration of the loop of [update_widget] *)

Lemma update_widget_page_run (o : Z) (p : Page) :
  update_widget_page self o p =
  let i := forward_position self p in
  if o <? i then paint self (page_label self p) i p
  else if i <? o then
    match Py.getitem (stages self) o with
    | Ok s => paint self (Some s) o (relabel self s p)
    | Raise e => (p, Raise e)
    end
  else paint self (page_label self p) o p.
Proof.
  unfold update_widget_page, get_annotation, set_annotation, set_color, paint,
    forward_position, page_label, relabel, recolor, Py.dict_item.
  munfold. simpl.
  destruct (o <? _); [|destruct (_ <? o); [destruct (Py.getitem _ _); [|done]|]];
    simpl; repeat case_match; simplify_eq; done.
Qed.

Lemma forward_position_recolor (c : option Color) (p : Page) :
  forward_position self (recolor c p) = forward_position self p.
Proof. done. Qed.

Lemma page_label_recolor (c : option Color) (p : Page) :
  page_label self (recolor c p) = page_label self p.
Proof. done. Qed.

Lemma page_label_relabel (s : string) (p : Page) :
  page_label self (relabel self s p) = Some s.
Proof. unfold page_label, relabel. simpl. by rewrite lookup_insert_eq. Qed.

Lemma forward_position_relabel (s : string) (i : Z) (p : Page) :
  stage_indices self !! s = Some i → forward_position self (relabel self s p) = i.
Proof.
  intros Hi. unfold forward_position. rewrite page_label_relabel. simpl. by rewrite Hi.
Qed.

Lemma relabel_same (s : string) (p : Page) :
  page_label self p = Some s → relabel self s p = p.
Proof.
  unfold page_label, relabel. intros Hs. destruct p as [ann col]. simpl in *.
  f_equal. by apply insert_id.
Qed.

(** Either the iteration raises, which it does only on a label that is no
    stage name met before any stage has been seen, and then the page is as
    it was; or the page ends at the running maximum, and running the
    iteration again on the result changes nothing. *)
Lemma update_widget_page_spec (o : Z) (p p' : Page) (r : result Z) :
  seen_index self o →
  update_widget_page self o p = (p', r) →
  let i := forward_position self p in
  (r = Ok (Z.max o i) ∧ seen_index self (Z.max o i) ∧
   forward_position self p' = Z.max o i ∧
   (forward_position self p' = -1 → page_label self p' = None) ∧
   (i < o → ∃ s, stages self !! Z.to_nat o = Some s ∧ page_label self p' = Some s) ∧
   (o ≤ i → page_label self p' = page_label self p) ∧
   update_widget_page self o p' = (p', r))
  ∨ (∃ e, r = Raise e ∧ i = -1 ∧ o = -1 ∧ p' = p ∧ page_label self p ≠ None).
Proof.
  intros Ho Hrun. pose proof (seen_index_ge o Ho) as Hge. cbv zeta.
  destruct (forward_position_cases p) as [[Hi Hunk]|[Hi (s & Hs & Hidx)]].
  - (* the page carries no stage name *)
    destruct (decide (o = -1)) as [->|Hne].
    + (* nothing seen yet: the page keeps its label *)
      rewrite update_widget_page_run in Hrun. cbv zeta in Hrun. rewrite Hi in Hrun.
      simpl in Hrun. unfold paint in Hrun.
      destruct (page_label self p) as [s|] eqn:Hs.
      * destruct (colors self !! s) as [c|] eqn:Hc.
        { exfalso. destruct (color_idx s) as [j Hj]; [by eexists|].
          by rewrite (Hunk s) in Hj. }
        injection Hrun as <- <-. right. exists KeyError. rewrite Hi. by repeat split.
      * injection Hrun as <- <-. left. rewrite Hi. simpl.
        repeat split; try done; try lia; try by left.
        rewrite update_widget_page_run. cbv zeta.
        rewrite forward_position_recolor, page_label_recolor, Hi, Hs. done.
    + (* a stage has been seen: the page is stamped with it *)
      destruct Ho as [?|[s0 Hs0]]; [done|].
      pose proof (idx_range _ _ Hs0) as [Hr0 Hst0].
      rewrite update_widget_page_run in Hrun. cbv zeta in Hrun. rewrite Hi in Hrun.
      destruct (Z.ltb_spec o (-1)); [lia|]. destruct (Z.ltb_spec (-1) o); [|lia].
      rewrite (idx_getitem _ _ Hs0) in Hrun. unfold paint in Hrun.
      destruct (idx_color _ _ Hs0) as [c Hc]. rewrite Hc in Hrun.
      injection Hrun as <- <-. left. rewrite Hi, Z.max_l by lia.
      rewrite forward_position_recolor, (forward_position_relabel _ _ _ Hs0).
      repeat split; try done; try lia.
      * right. by exists s0.
      * intros _. exists s0. split; [done|]. apply page_label_relabel.
      * rewrite update_widget_page_run. cbv zeta.
        rewrite forward_position_recolor, (forward_position_relabel _ _ _ Hs0).
        rewrite Z.ltb_irrefl. unfold paint.
        change (page_label self (recolor (Some c) (relabel self s0 p)))
          with (page_label self (relabel self s0 p)).
        rewrite page_label_relabel, Hc. done.
  - (* the page carries the stage name [s] *)
    destruct (idx_color _ _ Hidx) as [c Hc].
    rewrite update_widget_page_run in Hrun. cbv zeta in Hrun.
    destruct (Z.ltb_spec o (forward_position self p)) as [Hlt|Hle].
    + (* older than anything seen *)
      unfold paint in Hrun. rewrite Hs, Hc in Hrun. injection Hrun as <- <-.
      left. rewrite Z.max_r by lia. rewrite forward_position_recolor.
      repeat split; try done; try lia.
      * right. by exists s.
      * rewrite update_widget_page_run. cbv zeta. rewrite forward_position_recolor.
        destruct (Z.ltb_spec o (forward_position self p)); [|lia].
        unfold paint.
        change (page_label self (recolor (Some c) p)) with (page_label self p).
        by rewrite Hs, Hc.
    + destruct (Z.ltb_spec (forward_position self p) o) as [Hlt|Hle'].
      * (* younger than the oldest seen: stamped *)
        destruct Ho as [?|[s0 Hs0]]; [lia|].
        pose proof (idx_range _ _ Hs0) as [Hr0 Hst0].
        rewrite (idx_getitem _ _ Hs0) in Hrun. unfold paint in Hrun.
        destruct (idx_color _ _ Hs0) as [c0 Hc0]. rewrite Hc0 in Hrun.
        injection Hrun as <- <-. left. rewrite Z.max_l by lia.
        rewrite forward_position_recolor, (forward_position_relabel _ _ _ Hs0).
        repeat split; try done; try lia.
        { right. by exists s0. }
        { intros _. exists s0. split; [done|]. apply page_label_relabel. }
        rewrite update_widget_page_run. cbv zeta.
        rewrite forward_position_recolor, (forward_position_relabel _ _ _ Hs0).
        rewrite Z.ltb_irrefl. unfold paint.
        change (page_label self (recolor (Some c0) (relabel self s0 p)))
          with (page_label self (relabel self s0 p)).
        rewrite page_label_relabel, Hc0. done.
      * (* as old as the oldest seen *)
        unfold paint in Hrun. rewrite Hs, Hc in Hrun. injection Hrun as <- <-.
        left. rewrite Z.max_l by lia. rewrite forward_position_recolor.
        repeat split; try done; try lia.
        rewrite update_widget_page_run. cbv zeta. rewrite forward_position_recolor.
        destruct (Z.ltb_spec o (forward_position self p)); [lia|].
        destruct (Z.ltb_spec (forward_position self p) o); [lia|].
        unfold paint.
        change (page_label self (recolor (Some c) p)) with (page_label self p).
        by rewrite Hs, Hc.
Qed.

(** ** The loop of [update_widget] *)

Lemma update_widget_pages_idem (o : Z) (ps ps' : list Page) (r : result Z) :
  seen_index self o →
  update_widget_pages self o ps = (ps', r) →
  update_widget_pages self o ps' = (ps', r).
Proof.
  unfold update_widget_pages. revert o ps' r.
  induction ps as [|p ps IH]; intros o ps' r Ho Hrun; simpl in Hrun.
  - by injection Hrun as <- <-.
  - destruct (update_widget_page self o p) as [p1 r1] eqn:Hstep.
    destruct (update_widget_page_spec _ _ _ _ Ho Hstep)
      as [(-> & Hseen & _ & _ & _ & _ & Hidem)|(e & -> & _ & _ & -> & _)].
    + destruct (traverse _ _ ps) as [ps1 r2] eqn:Ht. injection Hrun as <- <-.
      simpl. rewrite Hidem. by rewrite (IH _ _ _ Hseen Ht).
    + injection Hrun as <- <-. simpl. by rewrite Hstep.
Qed.

Lemma update_widget_pages_ascending (o o' : Z) (ps ps' : list Page) :
  seen_index self o →
  update_widget_pages self o ps = (ps', Ok o') →
  ascending self o ps'.
Proof.
  unfold update_widget_pages. revert o ps'.
  induction ps as [|p ps IH]; intros o ps' Ho Hrun; simpl in Hrun.
  - by injection Hrun as <-.
  - destruct (update_widget_page self o p) as [p1 r1] eqn:Hstep.
    destruct (update_widget_page_spec _ _ _ _ Ho Hstep)
      as [(-> & Hseen & Hfp & Hunset & _ & _ & _)|(e & -> & _)]; [|done].
    destruct (traverse _ _ ps) as [ps1 r2] eqn:Ht. injection Hrun as <- ->.
    simpl. split; [lia|]. split; [done|]. rewrite Hfp. by apply IH.
Qed.

Lemma update_widget_pages_total (o : Z) (ps : list Page) :
  seen_index self o →
  (0 ≤ o ∨ ∀ p, head ps = Some p → 0 ≤ forward_position self p) →
  ∃ ps' o', update_widget_pages self o ps = (ps', Ok o').
Proof.
  unfold update_widget_pages. revert o.
  induction ps as [|p ps IH]; intros o Ho Hpos; simpl.
  - by eexists _, _.
  - destruct (update_widget_page self o p) as [p1 r1] eqn:Hstep.
    destruct (update_widget_page_spec _ _ _ _ Ho Hstep)
      as [(-> & Hseen & _)|(e & -> & Hi & -> & _)].
    + destruct (IH (Z.max o (forward_position self p)) Hseen) as (ps1 & o1 & ->).
      * left. destruct Hpos as [?|Hpos]; [lia|]. specialize (Hpos p eq_refl). lia.
      * by eexists _, _.
    + destruct Hpos as [?|Hpos]; [lia|]. specialize (Hpos p eq_refl). lia.
Qed.

Lemma update_widget_pages_stamped (o o' : Z) (ps ps' : list Page) (j : nat) (p : Page) :
  seen_index self o →
  update_widget_pages self o ps = (ps', Ok o') →
  ps !! j = Some p → page_label self p = None →
  let m := foldl (λ o p, Z.max o (forward_position self p)) o (take j ps) in
  0 ≤ m →
  ∃ s, stages self !! Z.to_nat m = Some s ∧ labels self ps' !! j = Some (Some s).
Proof.
  unfold update_widget_pages. revert o ps' j.
  induction ps as [|p0 ps IH]; intros o ps' j Ho Hrun Hj Hp; [done|].
  simpl in Hrun.
  destruct (update_widget_page self o p0) as [p1 r1] eqn:Hstep.
  destruct (update_widget_page_spec _ _ _ _ Ho Hstep)
    as [(-> & Hseen & _ & _ & Hlt & _ & _)|(e & -> & _)]; [|done].
  destruct (traverse _ _ ps) as [ps1 r2] eqn:Ht. injection Hrun as <- ->.
  destruct j as [|j]; simpl in *.
  - injection Hj as ->. intros Hm.
    assert (forward_position self p = -1) as Hfp.
    { unfold forward_position. by rewrite Hp. }
    destruct Hlt as (s & Hs & Hl); [lia|]. exists s. by rewrite Hl.
  - intros Hm. by apply (IH _ _ _ Hseen Ht Hj Hp).
Qed.

(** Unlabelled pages at the start of the flipbook keep no label, whatever
    happens later in the loop. *)
Lemma update_widget_pages_unset (ps : list Page) (j : nat) :
  (j < length ps)%nat →
  (∀ k p, (k ≤ j)%nat → ps !! k = Some p → page_label self p = None) →
  labels self (update_widget_pages self (-1) ps).1 !! j = Some None.
Proof.
  unfold update_widget_pages. revert j.
  induction ps as [|p ps IH]; intros j Hj Hunset; [simpl in Hj; lia|].
  assert (page_label self p = None) as Hp by (apply (Hunset 0%nat); [lia|done]).
  simpl. rewrite update_widget_page_run. cbv zeta.
  unfold forward_position. rewrite Hp. simpl.
  destruct (traverse _ _ ps) as [ps1 r] eqn:Ht. simpl.
  destruct j as [|j]; simpl.
  - by rewrite page_label_recolor, Hp.
  - apply (IH j); [simpl in Hj; lia|].
    intros k q Hk Hq. apply (Hunset (S k)); [lia|done].
Qed.

(** ** update_widget on the flipbook *)

Lemma update_widget_invalid (v : string) (w : World) :
  v ∉ stages self → update_widget self (Some v) w = (w, Raise ValueError).
Proof.
  intros Hv. unfold update_widget. rewrite bind_run, decide_False by done. by munfold.
Qed.

Lemma update_widget_valid (value : option string) (w : World) :
  (∀ v, value = Some v → v ∈ stages self) →
  update_widget self value w =
  (set_pages (with_text value w) (update_widget_pages self (-1) (pages w)).1,
   outcome (update_widget_pages self (-1) (pages w)).2).
Proof.
  intros Hv. unfold update_widget. rewrite bind_run.
  assert (match value with
          | Some v => if decide (v ∈ stages self) then setText v else raise ValueError
          | None => setText EmptyString
          end w = (with_text value w, Ok tt)) as ->.
  { destruct value as [v|]; [|done]. by rewrite decide_True by by apply Hv. }
  rewrite bind_run. unfold gets at 1. rewrite bind_run.
  change (pages (with_text value w)) with (pages w).
  pose proof (for_in_seq (update_widget_page self) (pages w) [] [] (-1)
                (with_text value w)) as Hloop.
  change (length (@nil Page)) with 0%nat in Hloop.
  rewrite Hloop by (simpl; by rewrite app_nil_r). clear Hloop.
  fold (update_widget_pages self (-1) (pages w)).
  destruct (update_widget_pages self (-1) (pages w)) as [ps' [o'|e]]; simpl;
    by rewrite app_nil_r.
Qed.

(** ** Ascending pages *)

Lemma ascending_lookup (o : Z) (ps : list Page) (i j : nat) (p q : Page) :
  ascending self o ps → (i ≤ j)%nat → ps !! i = Some p → ps !! j = Some q →
  o ≤ forward_position self p ≤ forward_position self q ∧
  (forward_position self p = -1 → page_label self p = None) ∧
  (forward_position self q = -1 → page_label self q = None).
Proof.
  revert o i j p q. induction ps as [|x ps IH]; intros o i j p q Hasc Hij Hi Hj; [done|].
  destruct Hasc as (Hox & Hx & Hasc).
  destruct i as [|i], j as [|j]; simpl in *; try lia.
  - simplify_eq. split; [lia|done].
  - injection Hi as ->.
    destruct (IH _ j j q q Hasc) as ((? & _) & ? & _); [lia|done|done|].
    split; [lia|done].
  - destruct (IH _ i j p q Hasc) as ((? & ?) & ? & ?); [lia|done|done|].
    split; [lia|done].
Qed.

Lemma ascending_monotone (o : Z) (ps : list Page) :
  ascending self o ps → monotone self ps.
Proof.
  intros Hasc i a b Ha Hb. unfold labels in *.
  apply list_lookup_fmap_Some in Ha as (p & Hpa & Hp).
  apply list_lookup_fmap_Some in Hb as (q & Hqb & Hq).
  destruct (ascending_lookup o ps i (S i) p q Hasc) as ((_ & Hle) & Hpu & Hqu);
    [lia|done|done|].
  destruct (forward_position_cases p) as [[Hi _]|[_ (s & Hs & Hidx)]];
    [rewrite Hpu in Hpa; done|].
  destruct (forward_position_cases q) as [[Hi _]|[_ (s' & Hs' & Hidx')]];
    [rewrite Hqu in Hqb; done|].
  rewrite Hs in Hpa. rewrite Hs' in Hqb. simplify_eq. by eexists _, _.
Qed.

Lemma ascending_unset_prefix (o : Z) (ps : list Page) :
  ascending self o ps → unset_prefix self ps.
Proof.
  intros Hasc i j a Ha [Hij Hj]. unfold labels in *.
  apply list_lookup_fmap_Some in Ha as (p & Hpa & Hp).
  destruct (lookup_lt_is_Some_2 ps j Hj) as [q Hq].
  destruct (ascending_lookup o ps i j p q Hasc) as ((_ & Hle) & Hpu & Hqu);
    [lia|done|done|].
  destruct (forward_position_cases p) as [[Hi _]|[Hpos _]];
    [rewrite Hpu in Hpa; done|].
  destruct (forward_position_cases q) as [[Hi _]|[_ (s' & Hs' & _)]]; [lia|].
  exists s'. by rewrite list_lookup_fmap, Hq, <- Hs'.
Qed.

(** ** The backward loop of [set_stage] *)

Lemma set_stage_page_run (y : Z) (p : Page) :
  set_stage_page self y p =
  let i := Py.dict_get (stage_indices self) (page_label self p)
             (Z.of_nat (length (stages self))) in
  if i <? y then (p, Ok i)
  else match Py.getitem (stages self) y with
       | Ok s => (relabel self s p, Ok y)
       | Raise e => (p, Raise e)
       end.
Proof.
  unfold set_stage_page, get_annotation, set_annotation, page_label, relabel.
  munfold. simpl. destruct (_ <? y); [done|]. by destruct (Py.getitem _ _).
Qed.

Lemma spec_position_eq (p : Page) :
  Py.dict_get (stage_indices self) (page_label self p) (Z.of_nat (length (stages self)))
  = Z.of_nat (spec_position self p).
Proof.
  unfold spec_position, Py.dict_get. destruct (page_label self p) as [s|]; [|done].
  rewrite idx_position. by destruct (position (stages self) s).
Qed.

Lemma spec_position_known (p : Page) :
  (spec_position self p < length (stages self))%nat → 0 ≤ forward_position self p.
Proof.
  unfold spec_position, forward_position, Py.dict_get.
  destruct (page_label self p) as [s|]; [|lia].
  rewrite idx_position. destruct (position (stages self) s); simpl; lia.
Qed.

Lemma relabel_known (s : string) (n : nat) (p : Page) :
  stages self !! n = Some s → 0 ≤ forward_position self (relabel self s p).
Proof.
  intros Hn. destruct (idx_of_stage _ _ Hn) as (i & Hi & Hle).
  rewrite (forward_position_relabel _ _ _ Hi). lia.
Qed.

(** The loop of the source computes what the specification describes. *)
Lemma backward_traverse (y : nat) (ps : list Page) :
  (y < length (stages self))%nat →
  ∃ y' : nat,
    traverse (set_stage_page self) (Z.of_nat y) ps
    = (backward_pass_spec self y ps, Ok (Z.of_nat y')).
Proof.
  revert y. induction ps as [|p ps IH]; intros y Hy; simpl; [by exists y|].
  rewrite set_stage_page_run. cbv zeta. rewrite spec_position_eq.
  destruct (Nat.ltb_spec (spec_position self p) y) as [Hlt|Hge].
  - destruct (Z.ltb_spec (Z.of_nat (spec_position self p)) (Z.of_nat y)); [|lia].
    destruct (IH (spec_position self p)) as (y' & ->); [lia|]. by exists y'.
  - destruct (Z.ltb_spec (Z.of_nat (spec_position self p)) (Z.of_nat y)); [lia|].
    destruct (lookup_lt_is_Some_2 (stages self) y Hy) as [s Hs].
    rewrite (getitem_in_range (stages self) (Z.of_nat y) s)
      by (by rewrite ?Nat2Z.id; try lia).
    destruct (IH y Hy) as (y' & ->). exists y'.
    unfold spec_overwrite. by rewrite Hs.
Qed.

Lemma backward_pass_spec_known (y : nat) (ps : list Page) (p : Page) :
  (y < length (stages self))%nat →
  p ∈ backward_pass_spec self y ps → 0 ≤ forward_position self p.
Proof.
  revert y. induction ps as [|q ps IH]; intros y Hy; simpl.
  - by intros ?%elem_of_nil.
  - destruct (Nat.ltb_spec (spec_position self q) y) as [Hlt|Hge].
    + intros [->|Hin]%elem_of_cons.
      * apply spec_position_known. lia.
      * apply (IH (spec_position self q)); [lia|done].
    + intros [->|Hin]%elem_of_cons.
      * destruct (lookup_lt_is_Some_2 (stages self) y Hy) as [s Hs].
        unfold spec_overwrite. rewrite Hs. by eapply relabel_known.
      * by apply (IH y).
Qed.

Lemma backward_pass_spec_length (y : nat) (ps : list Page) :
  length (backward_pass_spec self y ps) = length ps.
Proof.
  revert y. induction ps as [|q ps IH]; intros y; simpl; [done|].
  destruct (_ <? y)%nat; simpl; by rewrite IH.
Qed.

(** ** set_stage on the flipbook *)

Lemma target_position (target : string) :
  target ∈ Py.slice_1 (stages self) →
  ∃ t : nat, position (stages self) target = Some t ∧
             (1 ≤ t < length (stages self))%nat.
Proof.
  intros [n Hn]%list_elem_of_lookup_1. unfold Py.slice_1 in Hn.
  rewrite lookup_drop in Hn.
  destruct (position_last _ _ _ Hn) as (t & Ht & Hle). exists t. split; [done|].
  apply position_Some, lookup_lt_Some in Ht. lia.
Qed.

Lemma update_annotation_run (value : string) (w : World) (p : Page) :
  pages w !! page w = Some p →
  update_annotation self value w
  = (set_pages w (<[page w := relabel self value p]> (pages w)), Ok tt).
Proof.
  intros Hp. unfold update_annotation. rewrite bind_run. unfold gets at 1.
  unfold at_page. by rewrite Hp.
Qed.

Lemma set_stage_backward_run (target : string) (w : World) (p : Page) (t : nat) :
  pages w !! page w = Some p →
  position (stages self) target = Some t → (1 ≤ t)%nat →
  let ps1 := <[page w := relabel self target p]> (pages w) in
  set_stage_backward self target w
  = (set_pages w (rev (backward_pass_spec self (t - 1) (rev (take (page w) ps1)))
                  ++ drop (page w) ps1), Ok tt).
Proof.
  intros Hp Ht Ht1 ps1.
  pose proof (lookup_lt_Some _ _ _ Hp) as Hcur.
  assert (length ps1 = length (pages w)) as Hlen1 by apply length_insert.
  assert (t < length (stages self))%nat as Htlen
    by (apply position_Some, lookup_lt_Some in Ht; lia).
  unfold set_stage_backward. rewrite bind_run, (update_annotation_run _ _ _ Hp).
  fold ps1. rewrite bind_run. unfold pages_index_page.
  change (pages (set_pages w ps1)) with ps1.
  change (page (set_pages w ps1)) with (page w).
  rewrite decide_True by lia.
  rewrite bind_run. unfold lift at 1, Py.dict_item. rewrite idx_position, Ht. simpl.
  destruct (Z.ltb_spec 0 (Z.of_nat (page w))) as [Hpos|Hzero].
  - rewrite bind_run. unfold gets at 1. rewrite bind_run.
    change (pages (set_pages w ps1)) with ps1.
    rewrite slice_down_prefix by lia. rewrite Nat2Z.id.
    pose proof (for_in_rev_seq (set_stage_page self) (take (page w) ps1)
                  (drop (page w) ps1) (Z.of_nat t - 1) (set_pages w ps1)) as Hloop.
    rewrite length_take_le in Hloop by lia.
    rewrite Hloop by (simpl; by rewrite take_drop). clear Hloop.
    replace (Z.of_nat t - 1) with (Z.of_nat (t - 1)) by lia.
    destruct (backward_traverse (t - 1) (rev (take (page w) ps1))) as (y' & ->); [lia|].
    done.
  - assert (page w = 0%nat) as -> by lia. simpl. by munfold.
Qed.

Lemma set_stage_ok (target : string) (w : World) :
  (page w < length (pages w))%nat →
  target ∈ Py.slice_1 (stages self) →
  ∃ w', set_stage self target w = (w', Ok tt) ∧
        page w' = page w ∧ length (pages w') = length (pages w) ∧
        ascending self (-1) (pages w').
Proof.
  intros Hcur Htarget.
  destruct (lookup_lt_is_Some_2 _ _ Hcur) as [p Hp].
  destruct (target_position _ Htarget) as (t & Ht & Ht1 & Htlen).
  assert (target ∈ stages self) as Hin by by eapply (subseteq_drop 1).
  unfold set_stage. rewrite bind_run.
  rewrite (set_stage_backward_run _ _ _ _ Hp Ht Ht1). cbv zeta.
  set (ps1 := <[page w := relabel self target p]> (pages w)).
  set (psB := rev (backward_pass_spec self (t - 1) (rev (take (page w) ps1)))
              ++ drop (page w) ps1).
  rewrite update_widget_valid by (by intros v [= <-]).
  change (pages (set_pages w psB)) with psB.
  assert (length psB = length (pages w)) as HlenB.
  { unfold psB. rewrite length_app, length_rev, backward_pass_spec_length, length_rev.
    rewrite length_take, length_drop. unfold ps1. rewrite length_insert. lia. }
  destruct (update_widget_pages_total (-1) psB) as (ps' & o' & Hrun); [by left| |].
  { right. intros q Hq. apply head_Some in Hq as [rest Hq].
    assert (drop (page w) ps1 = relabel self target p :: drop (S (page w)) (pages w))
      as Hdrop.
    { unfold ps1. rewrite insert_take_drop by done.
      rewrite drop_app_length' by (rewrite length_take; lia). done. }
    unfold psB in Hq. rewrite Hdrop in Hq.
    destruct (rev (backward_pass_spec self (t - 1) (rev (take (page w) ps1))))
      as [|q0 l] eqn:Hrev; simpl in Hq; injection Hq as <- _.
    - pose proof (position_Some _ _ _ Ht) as Hst. by eapply relabel_known.
    - apply (backward_pass_spec_known (t - 1) (rev (take (page w) ps1))); [lia|].
      apply list_elem_of_In, in_rev. rewrite Hrev. by left. }
  rewrite Hrun. simpl. eexists. split; [done|]. simpl. split; [done|]. split.
  - pose proof (traverse_length (update_widget_page self) (-1) psB) as Hl.
    fold (update_widget_pages self (-1) psB) in Hl. rewrite Hrun in Hl. simpl in Hl. lia.
  - eapply update_widget_pages_ascending; [by left|done].
Qed.

Lemma press_ok (act : nat * string) (w : World) :
  (act.1 < length (pages w))%nat →
  act.2 ∈ Py.slice_1 (stages self) →
  ∃ w', press self act w = (w', Ok tt) ∧
        length (pages w') = length (pages w) ∧
        ascending self (-1) (pages w').
Proof.
  intros Hcur Htarget. unfold press. rewrite bind_run. unfold modify at 1.
  destruct (set_stage_ok act.2 {| pages := pages w; page := act.1; label := label w |})
    as (w' & -> & _ & Hlen & Hasc); [done|done|]. by exists w'.
Qed.

Lemma press_all_ok (acts : list (nat * string)) (w : World) :
  Forall (λ act, (act.1 < length (pages w))%nat ∧ act.2 ∈ Py.slice_1 (stages self)) acts →
  ∃ w', press_all self acts w = (w', Ok tt) ∧
        length (pages w') = length (pages w) ∧
        match acts with
        | [] => w' = w
        | _ :: _ => ascending self (-1) (pages w')
        end.
Proof.
  revert w. induction acts as [|act acts IH]; intros w Hacts; simpl.
  - by exists w.
  - apply Forall_cons in Hacts as [[Hcur Htarget] Hacts].
    destruct (press_ok act w Hcur Htarget) as (w1 & Hrun1 & Hlen1 & Hasc1).
    rewrite bind_run, Hrun1.
    destruct (IH w1) as (w' & -> & Hlen & Hend).
    { eapply Forall_impl; [done|]. intros a [? ?]. split; [lia|done]. }
    exists w'. split; [done|]. split; [lia|].
    destruct acts; [by subst|done].
Qed.

Lemma update_widget_pages_well_labelled (o : Z) (ps : list Page) :
  seen_index self o → well_labelled self ps →
  ∃ ps' o', update_widget_pages self o ps = (ps', Ok o').
Proof.
  unfold update_widget_pages. revert o.
  induction ps as [|p ps IH]; intros o Ho Hwl; simpl.
  - by eexists _, _.
  - destruct (update_widget_page self o p) as [p1 r1] eqn:Hstep.
    destruct (update_widget_page_spec _ _ _ _ Ho Hstep)
      as [(-> & Hseen & _)|(e & -> & Hi & -> & _ & Hlab)].
    + destruct (IH (Z.max o (forward_position self p)) Hseen) as (ps1 & o1 & ->).
      * intros q s Hq. apply Hwl. by right.
      * by eexists _, _.
    + exfalso. destruct (page_label self p) as [s|] eqn:Hs; [|done].
      assert (s ∈ stages self) as [n Hn]%list_elem_of_lookup_1
        by (apply (Hwl p); [by left|done]).
      destruct (idx_of_stage _ _ Hn) as (i & Hidx & Hle).
      unfold forward_position in Hi. rewrite Hs in Hi. simpl in Hi.
      rewrite Hidx in Hi. simpl in Hi. lia.
Qed.

Lemma oldest_seen_ge (o : Z) (ps : list Page) (q : Page) :
  q ∈ ps →
  forward_position self q ≤ foldl (λ o p, Z.max o (forward_position self p)) o ps.
Proof.
  assert (∀ l o, o ≤ foldl (λ o p, Z.max o (forward_position self p)) o l) as Hmono.
  { induction l as [|x l IHl]; intros o0; simpl; [lia|].
    specialize (IHl (Z.max o0 (forward_position self x))). lia. }
  revert o. induction ps as [|x ps IH]; intros o Hq; [by apply elem_of_nil in Hq|].
  simpl. apply elem_of_cons in Hq as [->|Hq]; [|by apply IH].
  specialize (Hmono ps (Z.max o (forward_position self x))). lia.
Qed.

End field.

Lemma insert_split {A} (l : list A) (i : nat) (x y : A) :
  l !! i = Some x →
  take i (<[i := y]> l) = take i l ∧ drop i (<[i := y]> l) = y :: drop (S i) l.
Proof.
  intros Hx. pose proof (lookup_lt_Some _ _ _ Hx) as Hlt.
  split; [by apply take_insert_ge|].
  rewrite insert_take_drop by done.
  by rewrite drop_app_length' by (rewrite length_take; lia).
Qed.

Lemma default_field_init :
  __init__ default_name default_stages default_transitions None 0%nat
  = (2%nat, Ok default_field).
Proof. vm_compute. reflexivity. Qed.

(** In the specification's pass an unset page never lowers the
    youngest-allowed position, and is stamped with the stage there. *)
Lemma backward_pass_spec_unset (self : StageField) (y : nat) (p : Page) (rest : list Page) :
  page_label self p = None → (y ≤ length (stages self))%nat →
  backward_pass_spec self y (p :: rest)
  = spec_overwrite self y p :: backward_pass_spec self y rest.
Proof.
  intros Hp Hy. simpl. unfold spec_position. rewrite Hp.
  by destruct (Nat.ltb_spec (length (stages self)) y); [lia|].
Qed.

(** The colour cycle is shared: a second field built in the same run from
    the same stage list draws the next colours of the palette. *)
Example second_field_colors :
  ∃ self2, __init__ default_name default_stages default_transitions None 2%nat
           = (4%nat, Ok self2) ∧
    colors self2 !! "larva"%string = Some (184, 184, 255) ∧
    colors default_field !! "larva"%string = Some (184, 255, 184).
Proof.
  exists (built default_name default_stages default_transitions
            ["h"; "a"; "d"]%string "egg" "dead" 2).
  vm_compute. repeat split.
Qed.

(** ** The ordering of the stages: the claims *)

(** C1.  Whatever the labels of the pages were, after any sequence of
    [set_stage] calls, each on a page of the flipbook and with a target
    stage from [stages[1:]], every call returns and adjacent labelled pages
    carry stages in non-decreasing position.  (With no call at all the
    flipbook is as it was, so it is ordered if it was.) *)
Theorem C1_monotone (nm : string) (S0 T : list string) (sc : option (list string))
    (k k' : nat) (self : StageField) (acts : list (nat * string)) (w : World) :
  __init__ nm S0 T sc k = (k', Ok self) →
  Forall (λ act, (act.1 < length (pages w))%nat ∧ act.2 ∈ Py.slice_1 (stages self)) acts →
  acts ≠ [] ∨ monotone self (pages w) →
  ∃ w', press_all self acts w = (w', Ok tt) ∧ monotone self (pages w').
Proof.
  intros Hinit Hacts Hstart. apply init_wf in Hinit as [Hwf _].
  destruct (press_all_ok self Hwf acts w Hacts) as (w' & Hrun & _ & Hend).
  exists w'. split; [done|]. destruct acts as [|act acts].
  - subst. by destruct Hstart.
  - by eapply ascending_monotone.
Qed.

Lemma C1_monotone_witness :
  ∃ w', press_all default_field [(2%nat, "adult"%string); (0%nat, "dead"%string)] five_unset
        = (w', Ok tt) ∧
    monotone default_field (pages w').
Proof.
  apply (C1_monotone default_name default_stages default_transitions None 0%nat 2%nat).
  - vm_compute. reflexivity.
  - apply (bool_decide_unpack _). vm_compute. exact I.
  - left. discriminate.
Defined.

(** C2.  The backward pass of [set_stage], on a current page of the
    flipbook and with a target from [stages[1:]], returns, and leaves the
    flipbook as the specification's pass does: the pages strictly before the
    current page, taken in reverse order, go through [backward_pass_spec]
    started at [position(target) - 1]; the current page carries the target;
    the pages after it are untouched.  When the current page is the first
    page the pass does nothing.  An unset page counts as position
    [len(stages)]: it never lowers the youngest-allowed position and, having
    no stage to lose, is stamped with the stage at that position. *)
Theorem C2_backward_pass (nm : string) (S0 T : list string) (sc : option (list string))
    (k k' : nat) (self : StageField) (target : string) (w : World) (p : Page) :
  __init__ nm S0 T sc k = (k', Ok self) →
  pages w !! page w = Some p →
  target ∈ Py.slice_1 (stages self) →
  ∃ t : nat,
    position (stages self) target = Some t ∧ (1 ≤ t)%nat ∧
    set_stage_backward self target w
    = (set_pages w
         (rev (backward_pass_spec self (t - 1) (rev (take (page w) (pages w))))
          ++ relabel self target p :: drop (S (page w)) (pages w)), Ok tt) ∧
    (page w = 0%nat →
     set_stage_backward self target w
     = (set_pages w (relabel self target p :: drop 1 (pages w)), Ok tt)).
Proof.
  intros Hinit Hp Htarget. apply init_wf in Hinit as [Hwf _].
  destruct (target_position self _ Htarget) as (t & Ht & Ht1 & _).
  exists t. split; [done|]. split; [done|].
  rewrite (set_stage_backward_run self Hwf _ _ _ _ Hp Ht Ht1). cbv zeta.
  destruct (insert_split (pages w) (page w) p (relabel self target p) Hp) as [-> ->].
  split; [done|]. intros Hzero. by rewrite Hzero.
Qed.

Lemma C2_backward_pass_witness :
  ∃ t : nat,
    position (stages default_field) "adult" = Some t ∧ (1 ≤ t)%nat ∧
    set_stage_backward default_field "adult" five_unset
    = (set_pages five_unset
         (rev (backward_pass_spec default_field (t - 1)
                 (rev (take (page five_unset) (pages five_unset))))
          ++ relabel default_field "adult" blank_page
             :: drop (S (page five_unset)) (pages five_unset)), Ok tt) ∧
    (page five_unset = 0%nat →
     set_stage_backward default_field "adult" five_unset
     = (set_pages five_unset
          (relabel default_field "adult" blank_page :: drop 1 (pages five_unset)),
        Ok tt)).
Proof.
  apply (C2_backward_pass default_name default_stages default_transitions None
           0%nat 2%nat).
  - vm_compute. reflexivity.
  - reflexivity.
  - apply (bool_decide_unpack _). vm_compute. exact I.
Defined.

(** C3.  With the default stages [egg, larva, adult, dead] and five pages
    all unset, [set_stage('adult')] on the third page returns; its backward
    pass leaves the labels [larva, larva, adult, unset, unset], and the
    whole call leaves [larva, larva, adult, adult, adult]. *)
Theorem C3_scenario :
  __init__ default_name default_stages default_transitions None 0%nat
  = (2%nat, Ok default_field) ∧
  labels default_field (pages five_unset) = [None; None; None; None; None] ∧
  (∃ wB, set_stage_backward default_field "adult" five_unset = (wB, Ok tt) ∧
     labels default_field (pages wB)
     = [Some "larva"; Some "larva"; Some "adult"; None; None]%string) ∧
  (∃ w', set_stage default_field "adult" five_unset = (w', Ok tt) ∧
     labels default_field (pages w')
     = [Some "larva"; Some "larva"; Some "adult"; Some "adult"; Some "adult"]%string).
Proof.
  split; [vm_compute; reflexivity|]. split; [vm_compute; reflexivity|]. split.
  - exists (set_stage_backward default_field "adult" five_unset).1.
    split; vm_compute; reflexivity.
  - exists (set_stage default_field "adult" five_unset).1.
    split; vm_compute; reflexivity.
Qed.

(** C4.  In the forward pass of [update_widget]:
    - an unlabelled page with only unlabelled pages before it still has no
      label afterwards, however the call ends;
    - when the call returns, an unlabelled page that comes after a page
      labelled with a stage carries afterwards the stage at the running
      maximum of the positions seen before it;
    - and the call does return when the value is [None] or a stage name and
      every label in the flipbook is a stage name. *)
Theorem C4_unset_handling (nm : string) (S0 T : list string) (sc : option (list string))
    (k k' : nat) (self : StageField) (value : option string) (w : World) :
  __init__ nm S0 T sc k = (k', Ok self) →
  (∀ j : nat, (j < length (pages w))%nat →
     (∀ i p, (i ≤ j)%nat → pages w !! i = Some p → page_label self p = None) →
     labels self (pages (update_widget self value w).1) !! j = Some None) ∧
  (∀ (w' : World) (j : nat) (p : Page),
     update_widget self value w = (w', Ok tt) →
     pages w !! j = Some p → page_label self p = None →
     (∃ (i : nat) (q : Page) (s : string),
        (i < j)%nat ∧ pages w !! i = Some q ∧ page_label self q = Some s ∧
        s ∈ stages self) →
     ∃ s, stages self !! Z.to_nat (oldest_seen self (take j (pages w))) = Some s ∧
          labels self (pages w') !! j = Some (Some s)) ∧
  ((∀ v, value = Some v → v ∈ stages self) → well_labelled self (pages w) →
   ∃ w', update_widget self value w = (w', Ok tt)).
Proof.
  intros Hinit. apply init_wf in Hinit as [Hwf _].
  assert ((∀ v, value = Some v → v ∈ stages self) ∨
          ∃ v, value = Some v ∧ v ∉ stages self) as Hvalue.
  { destruct value as [v|]; [|by left].
    destruct (decide (v ∈ stages self)); [left; by intros ? [= <-]|right; by exists v]. }
  split; [|split].
  - intros j Hj Hunset. destruct Hvalue as [Hv|(v & -> & Hv)].
    + rewrite (update_widget_valid self _ _ Hv). simpl.
      by apply update_widget_pages_unset.
    + rewrite (update_widget_invalid self _ _ Hv). simpl.
      destruct (lookup_lt_is_Some_2 _ _ Hj) as [p Hp].
      unfold labels. rewrite list_lookup_fmap, Hp. simpl. f_equal.
      by apply (Hunset j).
  - intros w' j p Hrun Hp Hlab (i & q & s & Hij & Hq & Hqs & Hs).
    destruct Hvalue as [Hv|(v & -> & Hv)];
      [|by rewrite (update_widget_invalid self _ _ Hv) in Hrun].
    rewrite (update_widget_valid self _ _ Hv) in Hrun.
    destruct (update_widget_pages self (-1) (pages w)) as [ps' [o'|e]] eqn:Hpass;
      [|done].
    injection Hrun as <-. simpl.
    apply (update_widget_pages_stamped self Hwf (-1) o' (pages w) ps' j p);
      [by left|done|done|done|].
    apply list_elem_of_lookup_1 in Hs as [n Hn].
    destruct (idx_of_stage self Hwf _ _ Hn) as (ix & Hix & Hle).
    assert (forward_position self q = ix) as Hfq.
    { unfold forward_position. rewrite Hqs. simpl. by rewrite Hix. }
    pose proof (oldest_seen_ge self (-1) (take j (pages w)) q) as Hge.
    rewrite Hfq in Hge. etrans; [|apply Hge].
    + lia.
    + apply list_elem_of_lookup. exists i. by rewrite lookup_take_lt.
  - intros Hv Hwl. rewrite (update_widget_valid self _ _ Hv).
    destruct (update_widget_pages_well_labelled self Hwf (-1) (pages w))
      as (ps' & o' & ->); [by left|done|].
    by eexists.
Qed.

Lemma C4_unset_handling_witness :
  labels default_field (pages (update_widget default_field None three_mixed).1) !! 0%nat
  = Some None ∧
  (∃ s, stages default_field
          !! Z.to_nat (oldest_seen default_field (take 2 (pages three_mixed))) = Some s ∧
        labels default_field (pages (update_widget default_field None three_mixed).1)
          !! 2%nat = Some (Some s)).
Proof.
  destruct (C4_unset_handling default_name default_stages default_transitions None
              0%nat 2%nat default_field None three_mixed) as (Hkept & Hstamped & _).
  - vm_compute. reflexivity.
  - split.
    + apply Hkept.
      * simpl. lia.
      * intros [|i] p Hi; [|lia]. simpl. by intros [= <-].
    + apply (Hstamped _ 2%nat blank_page).
      * vm_compute. reflexivity.
      * reflexivity.
      * reflexivity.
      * exists 1%nat, (labelled default_name "adult"), "adult"%string.
        split; [lia|]. split; [reflexivity|]. split; [reflexivity|].
        apply (bool_decide_unpack _). vm_compute. exact I.
Defined.

(** C5.  [update_widget] is idempotent: called again with the same value on
    the state it left, it ends the same way and changes nothing, labels
    included. *)
Theorem C5_idempotent (nm : string) (S0 T : list string) (sc : option (list string))
    (k k' : nat) (self : StageField) (value : option string)
    (w w1 : World) (r1 : result unit) :
  __init__ nm S0 T sc k = (k', Ok self) →
  update_widget self value w = (w1, r1) →
  update_widget self value w1 = (w1, r1) ∧
  labels self (pages (update_widget self value w1).1) = labels self (pages w1).
Proof.
  intros Hinit Hrun. apply init_wf in Hinit as [Hwf _].
  cut (update_widget self value w1 = (w1, r1)); [by intros ->|].
  destruct value as [v|]; [destruct (decide (v ∈ stages self)) as [Hv|Hv]|].
  3: assert (∀ v, None = Some v → v ∈ stages self) as Hvalid by done.
  1: assert (∀ v', Some v = Some v' → v' ∈ stages self) as Hvalid by by intros ? [= <-].
  2: { rewrite (update_widget_invalid self _ _ Hv) in Hrun. injection Hrun as <- <-.
       by apply update_widget_invalid. }
  all: rewrite (update_widget_valid self _ _ Hvalid) in Hrun;
    destruct (update_widget_pages self (-1) (pages w)) as [ps' r] eqn:Hpass;
    injection Hrun as <- <-;
    rewrite (update_widget_valid self _ _ Hvalid);
    change (pages (set_pages (with_text _ w) ps')) with ps';
    rewrite (update_widget_pages_idem self Hwf _ _ _ _ (or_introl eq_refl) Hpass);
    done.
Qed.

Lemma C5_idempotent_witness :
  update_widget default_field None (update_widget default_field None three_mixed).1
  = update_widget default_field None three_mixed ∧
  labels default_field
    (pages (update_widget default_field None
              (update_widget default_field None three_mixed).1).1)
  = labels default_field (pages (update_widget default_field None three_mixed).1).
Proof.
  apply (C5_idempotent default_name default_stages default_transitions None
           0%nat 2%nat default_field None three_mixed).
  - vm_compute. reflexivity.
  - vm_compute. reflexivity.
Defined.

(** C6.  [update_widget] called with a value that is neither [None] nor a
    stage name raises [ValueError], and the state, the page labels
    included, is as it was. *)
Theorem C6_invalid_value (self : StageField) (v : string) (w : World) :
  v ∉ stages self →
  update_widget self (Some v) w = (w, Raise ValueError).
Proof. apply update_widget_invalid. Qed.

Lemma C6_invalid_value_witness :
  update_widget default_field (Some "zombie"%string) three_mixed
  = (three_mixed, Raise ValueError).
Proof.
  apply (C6_invalid_value default_field "zombie" three_mixed).
  apply (bool_decide_unpack _). vm_compute. exact I.
Defined.

(** C10.  When [update_widget] returns, the unlabelled pages are the first
    pages of the flipbook: every page after a labelled page is labelled. *)
Theorem C10_unset_prefix (nm : string) (S0 T : list string) (sc : option (list string))
    (k k' : nat) (self : StageField) (value : option string) (w w' : World) :
  __init__ nm S0 T sc k = (k', Ok self) →
  update_widget self value w = (w', Ok tt) →
  unset_prefix self (pages w').
Proof.
  intros Hinit Hrun. apply init_wf in Hinit as [Hwf _].
  assert (∀ v, value = Some v → v ∈ stages self) as Hv.
  { intros v ->. destruct (decide (v ∈ stages self)) as [|Hv]; [done|].
    by rewrite (update_widget_invalid self _ _ Hv) in Hrun. }
  rewrite (update_widget_valid self _ _ Hv) in Hrun.
  destruct (update_widget_pages self (-1) (pages w)) as [ps' [o'|e]] eqn:Hpass; [|done].
  injection Hrun as <-. simpl.
  eapply ascending_unset_prefix; [done|].
  eapply update_widget_pages_ascending; [done|by left|done].
Qed.

Lemma C10_unset_prefix_witness :
  unset_prefix default_field (pages (update_widget default_field None three_mixed).1).
Proof.
  apply (C10_unset_prefix default_name default_stages default_transitions None
           0%nat 2%nat default_field None three_mixed).
  - vm_compute. reflexivity.
  - vm_compute. reflexivity.
Defined.

(** * Further properties of the code *)

(** ** Loops *)

Lemma traverse_app {L} (step : L → M Page L) (acc : L) (l1 l2 : list Page) :
  traverse step acc (l1 ++ l2) =
  match traverse step acc l1 with
  | (l1', Ok a) => let '(l2', r) := traverse step a l2 in (l1' ++ l2', r)
  | (l1', Raise e) => (l1' ++ l2, Raise e)
  end.
Proof.
  revert acc. induction l1 as [|p l1 IH]; intros acc; simpl.
  - by destruct (traverse step acc l2).
  - destruct (step acc p) as [p' [a|e]]; [|done].
    rewrite IH. destruct (traverse step a l1) as [l1' [a'|e]]; [|done].
    by destruct (traverse step a' l2).
Qed.

Section passes.
Variable self : StageField.
Hypothesis Hwf : wf_field self.

Lemma forward_position_range (p : Page) :
  -1 ≤ forward_position self p < Z.of_nat (length (stages self)).
Proof.
  destruct (forward_position_cases self Hwf p) as [[-> _]|[_ (s & _ & Hidx)]]; [lia|].
  apply (idx_range self Hwf) in Hidx. lia.
Qed.

Lemma not_stage_no_index (s : string) :
  s ∉ stages self → stage_indices self !! s = None.
Proof.
  intros Hs. destruct (stage_indices self !! s) as [i|] eqn:Hi; [|done].
  apply (idx_range self Hwf) in Hi as [_ Hi]. by apply list_elem_of_lookup_2 in Hi.
Qed.

(** ** More on the loop of [update_widget] *)

(** A raise can only come before any stage has been seen, and then no
    label has been touched. *)
Lemma update_widget_pages_raise (o : Z) (ps ps' : list Page) (e : exn) :
  seen_index self o →
  update_widget_pages self o ps = (ps', Raise e) →
  o = -1 ∧ e = KeyError ∧ labels self ps' = labels self ps.
Proof.
  unfold update_widget_pages. revert o ps'.
  induction ps as [|p ps IH]; intros o ps' Ho Hrun; simpl in Hrun; [done|].
  destruct (update_widget_page self o p) as [p1 r1] eqn:Hstep.
  pose proof (seen_index_ge self Hwf o Ho) as Hge.
  pose proof (forward_position_range p) as Hrange.
  destruct (update_widget_page_spec self Hwf _ _ _ _ Ho Hstep)
    as [(-> & Hseen & _ & _ & _ & Hkeep & _)|(e' & -> & Hi & -> & -> & _)].
  - destruct (traverse _ _ ps) as [ps1 r2] eqn:Ht. injection Hrun as <- ->.
    destruct (IH _ _ Hseen Ht) as (Hmax & -> & Hlab).
    split; [lia|]. split; [done|]. simpl. rewrite Hlab. f_equal. apply Hkeep. lia.
  - injection Hrun as <- <-. split; [done|]. split; [|done].
    rewrite update_widget_page_run in Hstep. cbv zeta in Hstep.
    rewrite Hi in Hstep. simpl in Hstep. unfold paint in Hstep.
    repeat case_match; by simplify_eq.
Qed.

(** Where the loop has been, every page sits at the running maximum of the
    positions up to and including its own. *)
Lemma update_widget_pages_position (o o' : Z) (ps ps' : list Page) (j : nat) (p' : Page) :
  seen_index self o →
  update_widget_pages self o ps = (ps', Ok o') →
  ps' !! j = Some p' →
  forward_position self p'
  = foldl (λ o p, Z.max o (forward_position self p)) o (take (S j) ps).
Proof.
  unfold update_widget_pages. revert o ps' j.
  induction ps as [|p ps IH]; intros o ps' j Ho Hrun Hj; simpl in Hrun.
  - by injection Hrun as <- _.
  - destruct (update_widget_page self o p) as [p1 r1] eqn:Hstep.
    destruct (update_widget_page_spec self Hwf _ _ _ _ Ho Hstep)
      as [(-> & Hseen & Hfp & _)|(e & -> & _)]; [|done].
    destruct (traverse _ _ ps) as [ps1 r2] eqn:Ht. injection Hrun as <- ->.
    destruct j as [|j]; simpl in *.
    + injection Hj as <-. by rewrite ?take_0.
    + by apply (IH _ _ _ Hseen Ht).
Qed.

(** A page at or above the running maximum keeps its label. *)
Lemma update_widget_pages_kept (o o' : Z) (ps ps' : list Page) (j : nat) (p : Page) :
  seen_index self o →
  update_widget_pages self o ps = (ps', Ok o') →
  ps !! j = Some p →
  foldl (λ o p, Z.max o (forward_position self p)) o (take j ps)
    ≤ forward_position self p →
  labels self ps' !! j = Some (page_label self p).
Proof.
  unfold update_widget_pages. revert o ps' j.
  induction ps as [|p0 ps IH]; intros o ps' j Ho Hrun Hj; [done|].
  simpl in Hrun.
  destruct (update_widget_page self o p0) as [p1 r1] eqn:Hstep.
  destruct (update_widget_page_spec self Hwf _ _ _ _ Ho Hstep)
    as [(-> & Hseen & _ & _ & _ & Hkeep & _)|(e & -> & _)]; [|done].
  destruct (traverse _ _ ps) as [ps1 r2] eqn:Ht. injection Hrun as <- ->.
  destruct j as [|j]; simpl in *.
  - injection Hj as ->. intros Hle. by rewrite Hkeep.
  - intros Hle. by apply (IH _ _ _ Hseen Ht Hj).
Qed.

Lemma running_max_bound (b o : Z) (ps : list Page) :
  o ≤ b → (∀ p, p ∈ ps → forward_position self p ≤ b) →
  foldl (λ o p, Z.max o (forward_position self p)) o ps ≤ b.
Proof.
  revert o. induction ps as [|p ps IH]; intros o Ho Hall; simpl; [done|].
  apply IH.
  - specialize (Hall p (list_elem_of_here _ _)). lia.
  - intros q Hq. apply Hall. by right.
Qed.

Lemma running_max_start (o : Z) (ps : list Page) :
  o ≤ foldl (λ o p, Z.max o (forward_position self p)) o ps.
Proof.
  revert o. induction ps as [|p ps IH]; intros o; simpl; [lia|].
  specialize (IH (Z.max o (forward_position self p))). lia.
Qed.

(** The loop never lowers a page, however it ends. *)
Lemma update_widget_pages_never_lowers (o : Z) (ps ps' : list Page) (r : result Z) :
  seen_index self o →
  update_widget_pages self o ps = (ps', r) →
  Forall2 (λ p p', forward_position self p ≤ forward_position self p') ps ps'.
Proof.
  unfold update_widget_pages. revert o ps' r.
  induction ps as [|p ps IH]; intros o ps' r Ho Hrun; simpl in Hrun.
  - injection Hrun as <- _. constructor.
  - destruct (update_widget_page self o p) as [p1 r1] eqn:Hstep.
    destruct (update_widget_page_spec self Hwf _ _ _ _ Ho Hstep)
      as [(-> & Hseen & Hfp & _)|(e & -> & _ & _ & -> & _)].
    + destruct (traverse _ _ ps) as [ps1 r2] eqn:Ht. injection Hrun as <- <-.
      constructor; [lia|]. by apply (IH _ _ _ Hseen Ht).
    + injection Hrun as <- _. apply Forall2_same_length_lookup_2; [done|].
      intros i x y Hx Hy. rewrite Hx in Hy. injection Hy as <-. lia.
Qed.

(** On pages already in order the loop returns and keeps every label. *)
Lemma update_widget_pages_in_order (o : Z) (ps : list Page) :
  seen_index self o → ascending self o ps →
  ∃ ps' o', update_widget_pages self o ps = (ps', Ok o') ∧
            labels self ps' = labels self ps.
Proof.
  unfold update_widget_pages. revert o.
  induction ps as [|p ps IH]; intros o Ho Hasc; simpl.
  - by eexists _, _.
  - destruct Hasc as (Hle & Hunset & Hasc).
    destruct (update_widget_page self o p) as [p1 r1] eqn:Hstep.
    destruct (update_widget_page_spec self Hwf _ _ _ _ Ho Hstep)
      as [(-> & Hseen & _ & _ & _ & Hkeep & _)|(e & -> & Hi & _ & _ & Hlab)].
    + rewrite Z.max_r in * by lia.
      destruct (IH _ Hseen Hasc) as (ps1 & o1 & -> & Hlabs).
      eexists _, _. split; [done|]. simpl. rewrite Hlabs, Hkeep by lia. done.
    + by rewrite Hunset in Hlab.
Qed.

End passes.

(** The colour of every page the loop has passed is the colour of the
    label the page now carries. *)
Lemma update_widget_page_color (self : StageField) (o o' : Z) (p p' : Page) :
  update_widget_page self o p = (p', Ok o') →
  color p' = label_color self (page_label self p').
Proof.
  rewrite update_widget_page_run. cbv zeta. intros Hrun.
  assert (∀ l o1 q, paint self l o1 q = (p', Ok o') → page_label self q = l →
                    color p' = label_color self (page_label self p')) as Hpaint.
  { intros l o1 q Hp Hl. unfold paint in Hp.
    destruct l as [s|]; [destruct (colors self !! s) as [c|] eqn:Hc|]; simplify_eq;
      rewrite page_label_recolor, Hl; simpl; done. }
  destruct (o <? _); [by eapply Hpaint|].
  destruct (_ <? o); [|by eapply Hpaint].
  destruct (Py.getitem _ _) as [s|e]; [|done].
  eapply Hpaint; [done|apply page_label_relabel].
Qed.

Lemma update_widget_pages_color (self : StageField) (o o' : Z) (ps ps' : list Page) (p' : Page) :
  update_widget_pages self o ps = (ps', Ok o') → p' ∈ ps' →
  color p' = label_color self (page_label self p').
Proof.
  unfold update_widget_pages. revert o ps'.
  induction ps as [|p ps IH]; intros o ps' Hrun Hin; simpl in Hrun.
  - injection Hrun as <- _. by apply elem_of_nil in Hin.
  - destruct (update_widget_page self o p) as [p1 [o1|e]] eqn:Hstep; [|done].
    destruct (traverse _ _ ps) as [ps1 r2] eqn:Ht. injection Hrun as <- ->.
    apply elem_of_cons in Hin as [->|Hin].
    + by eapply update_widget_page_color.
    + by eapply IH.
Qed.

(** ** The buttons of [init_widget] *)

Lemma zip3_length {A B C} (a : list A) (b : list B) (c : list C) :
  length (zip3 a b c) = (length a `min` (length b `min` length c))%nat.
Proof.
  revert b c. induction a as [|x a IH]; intros [|y b] [|z c]; simpl; try done.
  by rewrite IH.
Qed.

Lemma zip3_lookup {A B C} (a : list A) (b : list B) (c : list C) (i : nat) (xyz : A * B * C) :
  zip3 a b c !! i = Some xyz ↔
  a !! i = Some xyz.1.1 ∧ b !! i = Some xyz.1.2 ∧ c !! i = Some xyz.2.
Proof.
  revert b c i. induction a as [|x a IH]; intros [|y b] [|z c] i; simpl;
    try (split; [done|]; intros (? & ? & ?); done).
  destruct i as [|i]; simpl; [|apply IH].
  destruct xyz as [[x' y'] z']. simpl. split.
  - by intros [= -> -> ->].
  - by intros ([= ->] & [= ->] & [= ->]).
Qed.

Lemma init_widget_lookup (self : StageField) (i : nat) (b : Button) :
  init_widget self !! i = Some b ↔
  transitions self !! i = Some (transition_name b) ∧
  shortcuts self !! i = Some (shortcut_key b) ∧
  Py.slice_1 (stages self) !! i = Some (callback_stage b).
Proof.
  unfold init_widget. rewrite list_lookup_fmap. split.
  - destruct (zip3 _ _ _ !! i) as [xyz|] eqn:Hz; [|done]. simpl. intros [= <-]. simpl.
    by apply zip3_lookup in Hz.
  - intros (Ht & Hk & Hs).
    assert (zip3 (transitions self) (shortcuts self) (Py.slice_1 (stages self)) !! i
            = Some (transition_name b, shortcut_key b, callback_stage b)) as ->
      by by apply zip3_lookup.
    simpl. by destruct b.
Qed.

Lemma init_widget_stage (self : StageField) (b : Button) :
  b ∈ init_widget self → callback_stage b ∈ Py.slice_1 (stages self).
Proof.
  intros [i Hi]%list_elem_of_lookup_1. apply init_widget_lookup in Hi as (_ & _ & Hs).
  by eapply list_elem_of_lookup_2.
Qed.

Lemma click_all_press_all (self : StageField) (clicks : list (nat * Button)) :
  click_all self clicks
  = press_all self ((λ cb : nat * Button, (cb.1, callback_stage cb.2)) <$> clicks).
Proof. induction clicks as [|cb clicks IH]; simpl; [done|]. by rewrite IH. Qed.

Section flipbook.
Variable self : StageField.
Hypothesis Hwf : wf_field self.

(** ** The whole of [set_stage] *)

Lemma after_backward_head (t : nat) (target : string) (cur : nat) (p : Page)
    (ps : list Page) (q : Page) :
  position (stages self) target = Some t → (1 ≤ t)%nat →
  head (after_backward self t target cur p ps) = Some q →
  0 ≤ forward_position self q.
Proof.
  intros Ht Ht1 Hq. unfold after_backward in Hq.
  pose proof (position_Some _ _ _ Ht) as Hst.
  pose proof (lookup_lt_Some _ _ _ Hst) as Hlt.
  destruct (rev (backward_pass_spec self (t - 1) (rev (take cur ps))))
    as [|q0 l] eqn:Hrev; simpl in Hq; injection Hq as <-.
  - by eapply relabel_known.
  - apply (backward_pass_spec_known self Hwf (t - 1) (rev (take cur ps))); [lia|].
    apply list_elem_of_In, in_rev. rewrite Hrev. by left.
Qed.

Lemma set_stage_run (target : string) (w : World) (p : Page) (t : nat) :
  pages w !! page w = Some p →
  position (stages self) target = Some t → (1 ≤ t)%nat →
  ∃ ps' o',
    update_widget_pages self (-1) (after_backward self t target (page w) p (pages w))
    = (ps', Ok o') ∧
    set_stage self target w = (set_pages (with_text (Some target) w) ps', Ok tt).
Proof.
  intros Hp Ht Ht1.
  assert (target ∈ stages self) as Hin
    by (eapply list_elem_of_lookup_2, position_Some, Ht).
  destruct (update_widget_pages_total self Hwf (-1)
              (after_backward self t target (page w) p (pages w)))
    as (ps' & o' & Hrun); [by left| |].
  { right. intros q. by apply after_backward_head. }
  exists ps', o'. split; [done|].
  unfold set_stage. rewrite bind_run.
  rewrite (set_stage_backward_run self Hwf _ _ _ _ Hp Ht Ht1). cbv zeta.
  destruct (insert_split (pages w) (page w) p (relabel self target p) Hp) as [-> ->].
  fold (after_backward self t target (page w) p (pages w)).
  rewrite update_widget_valid by (by intros v [= <-]).
  change (pages (set_pages w ?ps)) with ps. by rewrite Hrun.
Qed.

Lemma after_backward_length (t : nat) (target : string) (cur : nat) (p : Page)
    (ps : list Page) :
  ps !! cur = Some p → length (after_backward self t target cur p ps) = length ps.
Proof.
  intros Hp%lookup_lt_Some. unfold after_backward.
  rewrite length_app, length_rev, backward_pass_spec_length, length_rev. simpl.
  rewrite length_take, length_drop. lia.
Qed.

End flipbook.

(** * Further properties: the statements *)

(** ** Construction and the buttons *)

(** X1.  With no shortcut list given, [init_widget] makes one button per
    transition: the [i]-th shows [transitions[i]], has its first letter
    (its first code point) as shortcut and sets the stage [stages[i+1]]. *)
Theorem X1_default_buttons (nm : string) (S0 T : list string) (k k' : nat)
    (self : StageField) :
  __init__ nm S0 T None k = (k', Ok self) →
  length (init_widget self) = length T ∧
  ∀ (i : nat) (t s : string), T !! i = Some t → S0 !! S i = Some s →
    ∃ c, Py.str_first t = Ok c ∧
         init_widget self !! i
         = Some {| transition_name := t; shortcut_key := c; callback_stage := s |}.
Proof.
  intros Hinit.
  destruct (init_inv _ _ _ _ _ _ _ Hinit) as (scs & a & b & Hlen & Hsc & _ & _ & _ & ->).
  simpl in Hsc. destruct (first_letters_Ok _ _ Hsc) as [Hlscs Hall]. split.
  - unfold init_widget. rewrite length_fmap, zip3_length. simpl.
    unfold Py.slice_1. rewrite length_drop. lia.
  - intros i t s Ht Hs. destruct (Hall i t Ht) as (c & Hc & Hci).
    exists c. split; [done|]. apply init_widget_lookup. simpl.
    unfold Py.slice_1. by rewrite lookup_drop.
Qed.

Lemma X1_default_buttons_witness :
  ∃ self, __init__ default_name ["egg"; "larva"; "adult"]%string
            ["éclore"; "adult"]%string None 0%nat = (1%nat, Ok self) ∧
    length (init_widget self) = 2%nat ∧
    init_widget self !! 0%nat
    = Some {| transition_name := "éclore"; shortcut_key := "é";
              callback_stage := "larva" |}.
Proof.
  destruct (__init__ default_name ["egg"; "larva"; "adult"]%string
              ["éclore"; "adult"]%string None 0%nat)
    as [k' [self|e]] eqn:Hinit; [|vm_compute in Hinit; discriminate].
  assert (k' = 1%nat) as -> by (vm_compute in Hinit; congruence).
  exists self. split; [reflexivity|].
  destruct (X1_default_buttons default_name ["egg"; "larva"; "adult"]%string
              ["éclore"; "adult"]%string 0%nat 1%nat self Hinit) as [Hlen Hall].
  split; [exact Hlen|].
  destruct (Hall 0%nat "éclore"%string "larva"%string) as (c & Hc & Hb);
    [reflexivity|reflexivity|].
  vm_compute in Hc. injection Hc as <-. exact Hb.
Defined.

(** X2.  When a shortcut list is given it is not checked against the
    transitions: [zip] stops with the shorter list, so [init_widget] makes
    [min(len(shortcuts), len(transitions))] buttons, and a transition past
    the end of the shortcut list gets no button. *)
Theorem X2_buttons_truncated (nm : string) (S0 T l : list string) (k k' : nat)
    (self : StageField) :
  __init__ nm S0 T (Some l) k = (k', Ok self) →
  shortcuts self = l ∧
  length (init_widget self) = (length l `min` length T)%nat ∧
  ∀ i : nat, (length l ≤ i)%nat → init_widget self !! i = None.
Proof.
  intros Hinit.
  destruct (init_inv _ _ _ _ _ _ _ Hinit) as (scs & a & b & Hlen & Hsc & _ & _ & _ & ->).
  simpl in Hsc. injection Hsc as <-. split; [done|].
  assert (length (init_widget (built nm S0 T l a b k)) = (length l `min` length T)%nat)
    as Hn.
  { unfold init_widget. rewrite length_fmap, zip3_length. simpl.
    unfold Py.slice_1. rewrite length_drop. lia. }
  split; [done|]. intros i Hi. apply lookup_ge_None. lia.
Qed.

Lemma X2_buttons_truncated_witness :
  ∃ self, __init__ default_name default_stages default_transitions (Some ["x"]%string) 0%nat
          = (2%nat, Ok self) ∧
    length (init_widget self) = 1%nat ∧ init_widget self !! 1%nat = None.
Proof.
  exists (built default_name default_stages default_transitions ["x"]%string
            "egg" "dead" 0).
  assert (__init__ default_name default_stages default_transitions (Some ["x"]%string) 0%nat
          = (2%nat, Ok (built default_name default_stages default_transitions
                          ["x"]%string "egg" "dead" 0))) as Hinit
    by (vm_compute; reflexivity).
  split; [exact Hinit|].
  destruct (X2_buttons_truncated _ _ _ _ _ _ _ Hinit) as (_ & Hlen & Hnone).
  split; [exact Hlen|]. apply Hnone. simpl. lia.
Defined.

(** X3.  The stage a button sets is never the first one: its index is at
    least 1, so the [youngest_stage_i] that [set_stage] starts from is a
    valid, non-negative index into [stages] (the comment in the source). *)
Theorem X3_button_index (nm : string) (S0 T : list string) (sc : option (list string))
    (k k' : nat) (self : StageField) (b : Button) :
  __init__ nm S0 T sc k = (k', Ok self) →
  b ∈ init_widget self →
  ∃ (stage_i : Z) (s : string),
    Py.dict_item (stage_indices self) (callback_stage b) = Ok stage_i ∧
    0 ≤ stage_i - 1 ∧
    Py.getitem (stages self) (stage_i - 1) = Ok s.
Proof.
  intros Hinit Hb. apply init_wf in Hinit as [Hwf _].
  apply init_widget_stage in Hb.
  destruct (target_position self _ Hb) as (t & Ht & Ht1 & Htlen).
  destruct (lookup_lt_is_Some_2 (stages self) (t - 1)) as [s Hs]; [lia|].
  exists (Z.of_nat t), s. unfold Py.dict_item.
  rewrite (idx_position self Hwf), Ht. simpl. split; [done|]. split; [lia|].
  apply getitem_in_range; [lia|]. by replace (Z.to_nat (Z.of_nat t - 1)) with (t - 1)%nat by lia.
Qed.

Lemma X3_button_index_witness :
  ∃ (stage_i : Z) (s : string),
    Py.dict_item (stage_indices default_field) "larva" = Ok stage_i ∧
    0 ≤ stage_i - 1 ∧
    Py.getitem (stages default_field) (stage_i - 1) = Ok s.
Proof.
  apply (X3_button_index default_name default_stages default_transitions None
           0%nat 2%nat default_field
           {| transition_name := "hatch"; shortcut_key := "h"; callback_stage := "larva" |}).
  - vm_compute. reflexivity.
  - apply (list_elem_of_lookup_2 _ 0%nat). vm_compute. reflexivity.
Defined.

(** X4.  Buttons never fail: any sequence of clicks on buttons of the
    field, each with a page of the flipbook current, returns without an
    exception, keeps the number of pages and, if there was a click at all,
    leaves adjacent labelled pages in stage order. *)
Theorem X4_clicks_safe (nm : string) (S0 T : list string) (sc : option (list string))
    (k k' : nat) (self : StageField) (clicks : list (nat * Button)) (w : World) :
  __init__ nm S0 T sc k = (k', Ok self) →
  Forall (λ cb, (cb.1 < length (pages w))%nat ∧ cb.2 ∈ init_widget self) clicks →
  ∃ w', click_all self clicks w = (w', Ok tt) ∧
        length (pages w') = length (pages w) ∧
        (clicks ≠ [] → monotone self (pages w')).
Proof.
  intros Hinit Hclicks. apply init_wf in Hinit as [Hwf _].
  rewrite click_all_press_all.
  destruct (press_all_ok self Hwf
              ((λ cb : nat * Button, (cb.1, callback_stage cb.2)) <$> clicks) w)
    as (w' & Hrun & Hlen & Hend).
  { apply Forall_fmap. eapply Forall_impl; [done|]. intros cb [Hcur Hb]. simpl.
    split; [done|]. by apply init_widget_stage. }
  exists w'. split; [done|]. split; [done|]. intros Hne.
  destruct clicks as [|cb clicks]; [done|]. simpl in Hend.
  by eapply ascending_monotone.
Qed.

Lemma X4_clicks_safe_witness :
  ∃ w', click_all default_field
          [(3%nat, {| transition_name := "adult"; shortcut_key := "a";
                      callback_stage := "adult" |});
           (1%nat, {| transition_name := "hatch"; shortcut_key := "h";
                      callback_stage := "larva" |})] five_unset = (w', Ok tt) ∧
        monotone default_field (pages w').
Proof.
  destruct (X4_clicks_safe default_name default_stages default_transitions None
              0%nat 2%nat default_field
              [(3%nat, {| transition_name := "adult"; shortcut_key := "a";
                          callback_stage := "adult" |});
               (1%nat, {| transition_name := "hatch"; shortcut_key := "h";
                          callback_stage := "larva" |})] five_unset)
    as (w' & Hrun & _ & Hmono).
  - vm_compute. reflexivity.
  - apply Forall_cons. split; [split; [simpl; lia|]|].
    { apply (list_elem_of_lookup_2 _ 1%nat). vm_compute. reflexivity. }
    apply Forall_cons. split; [split; [simpl; lia|]|apply Forall_nil_2].
    apply (list_elem_of_lookup_2 _ 0%nat). vm_compute. reflexivity.
  - exists w'. split; [exact Hrun|]. apply Hmono. discriminate.
Defined.

(** X5.  The index dictionary inverts the stage list: an index it gives
    for a name is a position of that name; every stage name has an index,
    at or after each of its positions (the last one wins); a name that is
    no stage has none; and when the names are distinct the index of
    [stages[n]] is [n]. *)
Theorem X5_stage_indices (nm : string) (S0 T : list string) (sc : option (list string))
    (k k' : nat) (self : StageField) :
  __init__ nm S0 T sc k = (k', Ok self) →
  (∀ s i, stage_indices self !! s = Some i → 0 ≤ i ∧ S0 !! Z.to_nat i = Some s) ∧
  (∀ (n : nat) s, S0 !! n = Some s →
     ∃ i, stage_indices self !! s = Some i ∧ Z.of_nat n ≤ i) ∧
  (∀ s, s ∉ S0 → stage_indices self !! s = None) ∧
  (NoDup S0 → ∀ (n : nat) s, S0 !! n = Some s →
     stage_indices self !! s = Some (Z.of_nat n)).
Proof.
  intros Hinit. apply init_wf in Hinit as [Hwf <-].
  split; [|split; [|split]].
  - intros s i Hi. apply (idx_range self Hwf) in Hi. split; [lia|tauto].
  - intros n s. apply (idx_of_stage self Hwf).
  - apply (not_stage_no_index self Hwf).
  - intros Hnd n s Hn. rewrite (idx_position self Hwf).
    by rewrite (position_nodup _ _ _ Hnd Hn).
Qed.

Lemma X5_stage_indices_witness :
  stage_indices default_field !! "adult"%string = Some 2 ∧
  stage_indices default_field !! "zombie"%string = None.
Proof.
  destruct (X5_stage_indices default_name default_stages default_transitions None
              0%nat 2%nat default_field) as (_ & _ & Hnone & Hnd).
  - vm_compute. reflexivity.
  - split.
    + assert (NoDup default_stages) as Hdistinct
        by (apply (bool_decide_unpack _); vm_compute; exact I).
      apply (Hnd Hdistinct 2%nat). reflexivity.
    + apply Hnone. apply (bool_decide_unpack _). vm_compute. exact I.
Defined.

(** X6.  The colour dictionary has a colour for every stage name and for
    nothing else, so the colour lookup of [update_widget] fails exactly on
    labels that are no stage name. *)
Theorem X6_colors_domain (nm : string) (S0 T : list string) (sc : option (list string))
    (k k' : nat) (self : StageField) (s : string) :
  __init__ nm S0 T sc k = (k', Ok self) →
  (s ∈ S0 → ∃ c, Py.dict_item (colors self) s = Ok c) ∧
  (s ∉ S0 → Py.dict_item (colors self) s = Raise KeyError).
Proof.
  intros Hinit. apply init_wf in Hinit as [[_ Hcol] <-].
  unfold Py.dict_item. split; intros Hs.
  - apply Hcol in Hs as [c ->]. by exists c.
  - destruct (colors self !! s) as [c|] eqn:Hc; [|done].
    exfalso. apply Hs, Hcol. by eexists.
Qed.

Lemma X6_colors_domain_witness :
  (∃ c, Py.dict_item (colors default_field) "adult" = Ok c) ∧
  Py.dict_item (colors default_field) "zombie" = Raise KeyError.
Proof.
  split.
  - apply (X6_colors_domain default_name default_stages default_transitions None
             0%nat 2%nat default_field "adult").
    + vm_compute. reflexivity.
    + apply (bool_decide_unpack _). vm_compute. exact I.
  - apply (X6_colors_domain default_name default_stages default_transitions None
             0%nat 2%nat default_field "zombie").
    + vm_compute. reflexivity.
    + apply (bool_decide_unpack _). vm_compute. exact I.
Defined.

(** ** set_stage and update_widget at their edges *)

(** X7.  When the current page is not a page of the flipbook, [set_stage]
    raises [ValueError] (from [pages.index]) and no page of the flipbook has
    been touched. *)
Theorem X7_page_not_in_flipbook (self : StageField) (stage : string) (w : World) :
  (length (pages w) ≤ page w)%nat →
  set_stage self stage w = (w, Raise ValueError).
Proof.
  intros Hout. unfold set_stage, set_stage_backward. rewrite !bind_run.
  unfold update_annotation. rewrite bind_run. unfold gets at 1, at_page.
  rewrite lookup_ge_None_2 by done. simpl.
  rewrite bind_run. unfold pages_index_page. by rewrite decide_False by lia.
Qed.

Lemma X7_page_not_in_flipbook_witness :
  set_stage default_field "adult"
    {| pages := [blank_page]; page := 1%nat; label := EmptyString |}
  = ({| pages := [blank_page]; page := 1%nat; label := EmptyString |}, Raise ValueError).
Proof. apply X7_page_not_in_flipbook. simpl. lia. Defined.

(** X8.  [set_stage] with a name that is no stage raises [KeyError] at the
    index lookup, after the name has been written on the current page: that
    page keeps the invalid label, every other page is as it was. *)
Theorem X8_unknown_stage (nm : string) (S0 T : list string) (sc : option (list string))
    (k k' : nat) (self : StageField) (stage : string) (w : World) (p : Page) :
  __init__ nm S0 T sc k = (k', Ok self) →
  pages w !! page w = Some p →
  stage ∉ stages self →
  set_stage self stage w
  = (set_pages w (<[page w := relabel self stage p]> (pages w)), Raise KeyError).
Proof.
  intros Hinit Hp Hstage. apply init_wf in Hinit as [Hwf _].
  pose proof (lookup_lt_Some _ _ _ Hp) as Hcur.
  unfold set_stage, set_stage_backward. rewrite !bind_run.
  rewrite (update_annotation_run self _ _ _ Hp).
  rewrite bind_run. unfold pages_index_page.
  change (pages (set_pages w ?ps)) with ps.
  change (page (set_pages w ?ps)) with (page w).
  rewrite decide_True by (rewrite length_insert; lia).
  rewrite bind_run. unfold lift at 1, Py.dict_item.
  by rewrite (not_stage_no_index self Hwf _ Hstage).
Qed.

Lemma X8_unknown_stage_witness :
  set_stage default_field "zombie" five_unset
  = (set_pages five_unset
       (<[2%nat := relabel default_field "zombie" blank_page]> (pages five_unset)),
     Raise KeyError).
Proof.
  apply (X8_unknown_stage default_name default_stages default_transitions None
           0%nat 2%nat default_field "zombie" five_unset blank_page).
  - vm_compute. reflexivity.
  - reflexivity.
  - apply (bool_decide_unpack _). vm_compute. exact I.
Defined.

(** X9.  [update_widget] never moves a page to a younger stage, however
    the call ends: a page that carried a stage carries afterwards a stage
    at the same or a later index. *)
Theorem X9_never_lowers (nm : string) (S0 T : list string) (sc : option (list string))
    (k k' : nat) (self : StageField) (value : option string) (w w' : World)
    (r : result unit) (j : nat) (p : Page) (s : string) (i : Z) :
  __init__ nm S0 T sc k = (k', Ok self) →
  update_widget self value w = (w', r) →
  pages w !! j = Some p → page_label self p = Some s →
  stage_indices self !! s = Some i →
  ∃ p' s' i', pages w' !! j = Some p' ∧ page_label self p' = Some s' ∧
              stage_indices self !! s' = Some i' ∧ i ≤ i'.
Proof.
  intros Hinit Hrun Hp Hs Hi. apply init_wf in Hinit as [Hwf _].
  destruct value as [v|]; [destruct (decide (v ∈ stages self)) as [Hv|Hv]|].
  2: { rewrite (update_widget_invalid self _ _ Hv) in Hrun. injection Hrun as <- _.
       exists p, s, i. repeat split; try done; lia. }
  1: assert (∀ v', Some v = Some v' → v' ∈ stages self) as Hvalid by by intros ? [= <-].
  2: assert (∀ v', None = Some v' → v' ∈ stages self) as Hvalid by done.
  all: rewrite (update_widget_valid self _ _ Hvalid) in Hrun;
    destruct (update_widget_pages self (-1) (pages w)) as [ps' r'] eqn:Hpass;
    injection Hrun as <- _; simpl;
    pose proof (update_widget_pages_never_lowers self Hwf _ _ _ _ (or_introl eq_refl) Hpass)
      as Hall;
    destruct (Forall2_lookup_l _ _ _ _ _ Hall Hp) as (p' & Hp' & Hle);
    assert (forward_position self p = i) as Hfp
      by (unfold forward_position; rewrite Hs; simpl; by rewrite Hi);
    pose proof (idx_range self Hwf _ _ Hi) as [Hrange _];
    destruct (forward_position_cases self Hwf p') as [[Hneg _]|[_ (s' & Hs' & Hi')]];
      [lia|];
    exists p', s', (forward_position self p'); repeat split; try done; lia.
Qed.

Lemma X9_never_lowers_witness :
  ∃ p' s' i', pages (update_widget default_field None three_mixed).1 !! 1%nat = Some p' ∧
              page_label default_field p' = Some s' ∧
              stage_indices default_field !! s' = Some i' ∧ 2 ≤ i'.
Proof.
  apply (X9_never_lowers default_name default_stages default_transitions None 0%nat 2%nat
           default_field None three_mixed _ (update_widget default_field None three_mixed).2
           1%nat (labelled default_name "adult") "adult").
  - vm_compute. reflexivity.
  - by destruct (update_widget default_field None three_mixed).
  - reflexivity.
  - reflexivity.
  - vm_compute. reflexivity.
Defined.

(** X10.  When [update_widget] returns, every page's colour is the colour
    of the label it now carries, and no colour for a page without label. *)
Theorem X10_colors_follow_labels (self : StageField) (value : option string)
    (w w' : World) (p' : Page) :
  update_widget self value w = (w', Ok tt) →
  p' ∈ pages w' →
  color p' = label_color self (page_label self p').
Proof.
  intros Hrun Hin.
  destruct value as [v|]; [destruct (decide (v ∈ stages self)) as [Hv|Hv]|].
  2: by rewrite (update_widget_invalid self _ _ Hv) in Hrun.
  1: assert (∀ v', Some v = Some v' → v' ∈ stages self) as Hvalid by by intros ? [= <-].
  2: assert (∀ v', None = Some v' → v' ∈ stages self) as Hvalid by done.
  all: rewrite (update_widget_valid self _ _ Hvalid) in Hrun;
    destruct (update_widget_pages self (-1) (pages w)) as [ps' [o'|e]] eqn:Hpass;
      [|done];
    injection Hrun as <-; simpl in Hin;
    by eapply update_widget_pages_color.
Qed.

Lemma X10_colors_follow_labels_witness :
  color (recolor (Some (255, 255, 184)) (relabel default_field "adult" blank_page))
  = label_color default_field
      (page_label default_field
         (recolor (Some (255, 255, 184)) (relabel default_field "adult" blank_page))).
Proof.
  apply (X10_colors_follow_labels default_field None three_mixed
           (update_widget default_field None three_mixed).1).
  - vm_compute. reflexivity.
  - apply (list_elem_of_lookup_2 _ 2%nat). vm_compute. reflexivity.
Defined.

(** X11.  A call of [update_widget] that raises has changed no label: the
    exception is the [ValueError] of the validation or the [KeyError] of
    the colour lookup, and the latter can only be met while no stage has
    been seen, hence before any page was stamped. *)
Theorem X11_raise_keeps_labels (nm : string) (S0 T : list string) (sc : option (list string))
    (k k' : nat) (self : StageField) (value : option string) (w w' : World) (e : exn) :
  __init__ nm S0 T sc k = (k', Ok self) →
  update_widget self value w = (w', Raise e) →
  labels self (pages w') = labels self (pages w) ∧ (e = ValueError ∨ e = KeyError).
Proof.
  intros Hinit Hrun. apply init_wf in Hinit as [Hwf _].
  destruct value as [v|]; [destruct (decide (v ∈ stages self)) as [Hv|Hv]|].
  2: { rewrite (update_widget_invalid self _ _ Hv) in Hrun. injection Hrun as <- <-.
       split; [done|by left]. }
  1: assert (∀ v', Some v = Some v' → v' ∈ stages self) as Hvalid by by intros ? [= <-].
  2: assert (∀ v', None = Some v' → v' ∈ stages self) as Hvalid by done.
  all: rewrite (update_widget_valid self _ _ Hvalid) in Hrun;
    destruct (update_widget_pages self (-1) (pages w)) as [ps' [o'|e']] eqn:Hpass;
      [done|];
    injection Hrun as <- <-; simpl;
    destruct (update_widget_pages_raise self Hwf _ _ _ _ (or_introl eq_refl) Hpass)
      as (_ & -> & Hlab);
    split; [done|by right].
Qed.

Lemma X11_raise_keeps_labels_witness :
  labels default_field
    (pages (update_widget default_field None
              {| pages := [blank_page; labelled default_name "zombie";
                           labelled default_name "adult"; blank_page];
                 page := 0%nat; label := EmptyString |}).1)
  = [None; Some "zombie"; Some "adult"; None]%string ∧
  (KeyError = ValueError ∨ KeyError = KeyError).
Proof.
  apply (X11_raise_keeps_labels default_name default_stages default_transitions None
           0%nat 2%nat default_field None
           {| pages := [blank_page; labelled default_name "zombie";
                        labelled default_name "adult"; blank_page];
              page := 0%nat; label := EmptyString |}).
  - vm_compute. reflexivity.
  - vm_compute. reflexivity.
Defined.

(** X12.  A flipbook already in order is left alone: if the pages'
    positions (unset counting as [-1]) never decrease and every label is a
    stage name, [update_widget] with a valid value returns and every label
    is what it was. *)
Theorem X12_ordered_untouched (nm : string) (S0 T : list string) (sc : option (list string))
    (k k' : nat) (self : StageField) (value : option string) (w : World) :
  __init__ nm S0 T sc k = (k', Ok self) →
  (∀ v, value = Some v → v ∈ stages self) →
  ascending self (-1) (pages w) →
  ∃ w', update_widget self value w = (w', Ok tt) ∧
        labels self (pages w') = labels self (pages w).
Proof.
  intros Hinit Hvalid Hasc. apply init_wf in Hinit as [Hwf _].
  rewrite (update_widget_valid self _ _ Hvalid).
  destruct (update_widget_pages_in_order self Hwf (-1) (pages w))
    as (ps' & o' & -> & Hlab); [by left|done|].
  eexists. split; [done|]. done.
Qed.

Lemma X12_ordered_untouched_witness :
  ∃ w', update_widget default_field (Some "larva"%string)
          {| pages := [blank_page; labelled default_name "larva";
                       labelled default_name "dead"];
             page := 1%nat; label := EmptyString |} = (w', Ok tt) ∧
        labels default_field (pages w') = [None; Some "larva"; Some "dead"]%string.
Proof.
  apply (X12_ordered_untouched default_name default_stages default_transitions None
           0%nat 2%nat default_field (Some "larva"%string)
           {| pages := [blank_page; labelled default_name "larva";
                        labelled default_name "dead"];
              page := 1%nat; label := EmptyString |}).
  - vm_compute. reflexivity.
  - intros v [= <-]. apply (bool_decide_unpack _). vm_compute. exact I.
  - simpl. vm_compute. repeat split; discriminate.
Defined.

(** X13.  After [set_stage], on a page of the flipbook and with a target
    from [stages[1:]], no page is left without a label: every page carries a
    stage name and the colour of that stage; the text shown is the target
    and the current page and the number of pages are as before. *)
Theorem X13_all_labelled (nm : string) (S0 T : list string) (sc : option (list string))
    (k k' : nat) (self : StageField) (target : string) (w : World) :
  __init__ nm S0 T sc k = (k', Ok self) →
  (page w < length (pages w))%nat →
  target ∈ Py.slice_1 (stages self) →
  ∃ w', set_stage self target w = (w', Ok tt) ∧
        label w' = target ∧ page w' = page w ∧
        length (pages w') = length (pages w) ∧
        ∀ p', p' ∈ pages w' →
          ∃ s c, page_label self p' = Some s ∧ s ∈ stages self ∧
                 colors self !! s = Some c ∧ color p' = Some c.
Proof.
  intros Hinit Hcur Htarget. apply init_wf in Hinit as [Hwf _].
  destruct (lookup_lt_is_Some_2 _ _ Hcur) as [p Hp].
  destruct (target_position self _ Htarget) as (t & Ht & Ht1 & _).
  destruct (set_stage_run self Hwf _ _ _ _ Hp Ht Ht1) as (ps' & o' & Hpass & ->).
  eexists. split; [done|]. simpl. split; [done|]. split; [done|].
  pose proof (traverse_length (update_widget_page self) (-1)
                (after_backward self t target (page w) p (pages w))) as Hlen.
  fold (update_widget_pages self (-1)
          (after_backward self t target (page w) p (pages w))) in Hlen.
  rewrite Hpass, (after_backward_length self _ _ _ _ _ Hp) in Hlen. simpl in Hlen.
  split; [done|]. intros p' Hin.
  pose proof Hin as [j Hj]%list_elem_of_lookup_1.
  pose proof (update_widget_pages_position self Hwf _ _ _ _ _ _ (or_introl eq_refl)
                Hpass Hj) as Hfp.
  assert (0 ≤ forward_position self p') as Hpos.
  { destruct (after_backward self t target (page w) p (pages w)) as [|q l] eqn:Hab.
    - pose proof (after_backward_length self t target _ _ _ Hp) as Hl.
      rewrite Hab in Hl. simpl in Hl. lia.
    - pose proof (after_backward_head self Hwf t target (page w) p (pages w) q Ht Ht1)
        as Hq.
      rewrite Hab in Hq. specialize (Hq eq_refl).
      rewrite Hfp. simpl.
      pose proof (running_max_start self (Z.max (-1) (forward_position self q))
                    (take j l)). lia. }
  destruct (forward_position_cases self Hwf p') as [[Hneg _]|[_ (s & Hs & Hi)]]; [lia|].
  destruct (idx_color self Hwf _ _ Hi) as [c Hc].
  exists s, c. split; [done|]. split.
  - apply (idx_range self Hwf) in Hi as [_ Hi]. by eapply list_elem_of_lookup_2.
  - split; [done|].
    rewrite (update_widget_pages_color self _ _ _ _ _ Hpass Hin), Hs. done.
Qed.

Lemma X13_all_labelled_witness :
  ∃ w', set_stage default_field "larva" five_unset = (w', Ok tt) ∧
        label w' = "larva"%string ∧ page w' = page five_unset ∧
        length (pages w') = length (pages five_unset) ∧
        ∀ p', p' ∈ pages w' →
          ∃ s c, page_label default_field p' = Some s ∧ s ∈ stages default_field ∧
                 colors default_field !! s = Some c ∧ color p' = Some c.
Proof.
  apply (X13_all_labelled default_name default_stages default_transitions None
           0%nat 2%nat).
  - vm_compute. reflexivity.
  - simpl. lia.
  - apply (bool_decide_unpack _). vm_compute. exact I.
Defined.

(** ** set_stage when the stage names are distinct *)

Section distinct_names.
Variable self : StageField.
Hypothesis Hwf : wf_field self.
Hypothesis Hnd : NoDup (stages self).

Lemma spec_position_forward (p : Page) :
  (spec_position self p < length (stages self))%nat →
  forward_position self p = Z.of_nat (spec_position self p).
Proof.
  unfold spec_position, forward_position, Py.dict_get.
  destruct (page_label self p) as [s|]; [|lia].
  rewrite (idx_position self Hwf). destruct (position (stages self) s); simpl; [done|lia].
Qed.

Lemma forward_spec_position (p : Page) :
  0 ≤ forward_position self p →
  Z.of_nat (spec_position self p) = forward_position self p ∧
  ∃ s, page_label self p = Some s ∧ stages self !! spec_position self p = Some s.
Proof.
  intros Hpos.
  destruct (forward_position_cases self Hwf p) as [[Hneg _]|[_ (s & Hs & Hi)]]; [lia|].
  rewrite (idx_position self Hwf) in Hi. unfold spec_position. rewrite Hs.
  destruct (position (stages self) s) as [n|] eqn:Hn; [|done].
  simpl in *. injection Hi as Hi. split; [done|]. exists s. split; [done|].
  by apply position_Some.
Qed.

Lemma spec_overwrite_position (y : nat) (p : Page) :
  (y < length (stages self))%nat →
  forward_position self (spec_overwrite self y p) = Z.of_nat y.
Proof.
  intros Hy. destruct (lookup_lt_is_Some_2 (stages self) y Hy) as [s Hs].
  unfold spec_overwrite. rewrite Hs. apply forward_position_relabel.
  by rewrite (idx_position self Hwf), (position_nodup _ _ _ Hnd Hs).
Qed.

(** The pages the backward pass has visited are at or below the position
    it started from. *)
Lemma backward_pass_spec_bound (y : nat) (ps : list Page) (p : Page) :
  (y < length (stages self))%nat →
  p ∈ backward_pass_spec self y ps → forward_position self p ≤ Z.of_nat y.
Proof.
  revert y. induction ps as [|q ps IH]; intros y Hy; simpl.
  - by intros ?%elem_of_nil.
  - destruct (Nat.ltb_spec (spec_position self q) y) as [Hlt|Hge].
    + intros [->|Hin]%elem_of_cons.
      * rewrite spec_position_forward by lia. lia.
      * specialize (IH (spec_position self q)). etrans; [apply IH; [lia|done]|lia].
    + intros [->|Hin]%elem_of_cons.
      * by rewrite spec_overwrite_position.
      * by apply IH.
Qed.

(** Pages already in order below the starting position, taken in reverse,
    go through the backward pass unchanged. *)
Lemma backward_pass_spec_fixed (y : nat) (m : list Page) :
  (y < length (stages self))%nat →
  (∀ q, q ∈ m → 0 ≤ forward_position self q ≤ Z.of_nat y) →
  (∀ (i j : nat) p q, (i ≤ j)%nat → m !! i = Some p → m !! j = Some q →
     forward_position self p ≤ forward_position self q) →
  backward_pass_spec self y (rev m) = rev m.
Proof.
  revert y. induction m as [|x m IH] using rev_ind; intros y Hy Hrange Hsorted; [done|].
  rewrite rev_app_distr. simpl.
  destruct (Hrange x) as [Hx0 Hxy]; [apply elem_of_app; right; by left|].
  destruct (forward_spec_position x Hx0) as (Hpos & s & Hs & Hst).
  assert (∀ q, q ∈ m → 0 ≤ forward_position self q ≤ forward_position self x) as Hbelow.
  { intros q Hq. split; [apply Hrange, elem_of_app; by left|].
    apply list_elem_of_lookup_1 in Hq as [i Hi].
    apply (Hsorted i (length m) q x).
    - apply lookup_lt_Some in Hi. lia.
    - by rewrite lookup_app_l by (by eapply lookup_lt_Some).
    - by rewrite list_lookup_middle. }
  assert (∀ (i j : nat) p q, (i ≤ j)%nat → m !! i = Some p → m !! j = Some q →
            forward_position self p ≤ forward_position self q) as Hsorted'.
  { intros i j p q Hij Hi Hj. apply (Hsorted i j); [done| |].
    - by rewrite lookup_app_l by (by eapply lookup_lt_Some).
    - by rewrite lookup_app_l by (by eapply lookup_lt_Some). }
  destruct (Nat.ltb_spec (spec_position self x) y) as [Hlt|Hge].
  - f_equal. apply IH; [lia| |done].
    intros q Hq. specialize (Hbelow q Hq). lia.
  - assert (spec_position self x = y) as Hxy' by lia.
    unfold spec_overwrite. rewrite <- Hxy', Hst, (relabel_same self _ _ Hs).
    f_equal. apply IH; [lia| |done].
    intros q Hq. specialize (Hbelow q Hq). lia.
Qed.

(** The flipbook [set_stage] leaves: the current page carries the target,
    the pages before it are strictly younger, the pages after it at least
    as old. *)
Lemma set_stage_shape (target : string) (w : World) (p : Page) (t : nat) :
  pages w !! page w = Some p →
  position (stages self) target = Some t → (1 ≤ t)%nat →
  ∃ ps' o',
    update_widget_pages self (-1) (after_backward self t target (page w) p (pages w))
    = (ps', Ok o') ∧
    set_stage self target w = (set_pages (with_text (Some target) w) ps', Ok tt) ∧
    length ps' = length (pages w) ∧
    labels self ps' !! page w = Some (Some target) ∧
    (∀ (j : nat) p', (j < page w)%nat → ps' !! j = Some p' →
       forward_position self p' < Z.of_nat t) ∧
    (∀ (j : nat) p', (page w < j)%nat → ps' !! j = Some p' →
       Z.of_nat t ≤ forward_position self p').
Proof.
  intros Hp Ht Ht1.
  pose proof (lookup_lt_Some _ _ _ Hp) as Hcur.
  pose proof (lookup_lt_Some _ _ _ (position_Some _ _ _ Ht)) as Htlen.
  destruct (set_stage_run self Hwf _ _ _ _ Hp Ht Ht1) as (ps' & o' & Hpass & Hrun).
  exists ps', o'. split; [done|]. split; [done|].
  pose proof (traverse_length (update_widget_page self) (-1)
                (after_backward self t target (page w) p (pages w))) as Hlen.
  fold (update_widget_pages self (-1)
          (after_backward self t target (page w) p (pages w))) in Hlen.
  rewrite Hpass, (after_backward_length self _ _ _ _ _ Hp) in Hlen. simpl in Hlen.
  split; [done|].
  unfold after_backward in Hpass.
  set (B := rev (backward_pass_spec self (t - 1) (rev (take (page w) (pages w))))) in *.
  assert (length B = page w) as HlenB.
  { unfold B. rewrite length_rev, backward_pass_spec_length, length_rev.
    apply length_take_le. lia. }
  assert (∀ q, q ∈ B → forward_position self q ≤ Z.of_nat t - 1) as HB.
  { intros q Hq. unfold B in Hq. apply list_elem_of_In, in_rev, list_elem_of_In in Hq.
    apply backward_pass_spec_bound in Hq; lia. }
  assert (forward_position self (relabel self target p) = Z.of_nat t) as Htarget.
  { apply forward_position_relabel. by rewrite (idx_position self Hwf), Ht. }
  split; [|split].
  - rewrite <- (page_label_relabel self target p).
    apply (update_widget_pages_kept self Hwf (-1) o'
             (B ++ relabel self target p :: drop (S (page w)) (pages w)) ps' (page w));
      [by left|done| |].
    + rewrite <- HlenB. apply list_lookup_middle. done.
    + rewrite take_app_length' by done. rewrite Htarget.
      etrans; [apply (running_max_bound self (Z.of_nat t - 1)); [lia|done]|lia].
  - intros j p' Hj Hp'.
    rewrite (update_widget_pages_position self Hwf _ _ _ _ _ _ (or_introl eq_refl)
               Hpass Hp').
    rewrite take_app_le by lia.
    enough (foldl (λ o p, Z.max o (forward_position self p)) (-1) (take (S j) B)
            ≤ Z.of_nat t - 1) by lia.
    apply running_max_bound; [lia|]. intros q Hq. apply HB.
    by eapply (subseteq_take (S j)).
  - intros j p' Hj Hp'.
    rewrite (update_widget_pages_position self Hwf _ _ _ _ _ _ (or_introl eq_refl)
               Hpass Hp').
    rewrite <- Htarget. apply oldest_seen_ge.
    apply list_elem_of_lookup. exists (page w).
    rewrite lookup_take_lt by lia. rewrite <- HlenB. by apply list_lookup_middle.
Qed.

End distinct_names.

(** ** set_stage called with the first stage *)

Lemma fmap_rev {A B} (f : A → B) (l : list A) : f <$> rev l = rev (f <$> l).
Proof.
  induction l as [|x l IH]; simpl; [done|]. by rewrite fmap_app, IH.
Qed.

Section first_stage.
Variable self : StageField.
Hypothesis Hwf : wf_field self.

(** With [youngest_stage_i = -1] no page is ever below it, and
    [stages[-1]] is the last stage: every page visited gets the last
    stage. *)
Lemma backward_traverse_wrap (sl : string) (ps : list Page) :
  last (stages self) = Some sl →
  traverse (set_stage_page self) (-1) ps = (relabel self sl <$> ps, Ok (-1)).
Proof.
  intros Hl. induction ps as [|p ps IH]; simpl; [done|].
  rewrite set_stage_page_run. cbv zeta. rewrite (spec_position_eq self Hwf).
  destruct (Z.ltb_spec (Z.of_nat (spec_position self p)) (-1)); [lia|].
  by rewrite (getitem_last _ _ Hl), IH.
Qed.

Lemma set_stage_backward_wrap (stage sl : string) (w : World) (p : Page) :
  pages w !! page w = Some p → (0 < page w)%nat →
  stage_indices self !! stage = Some 0 →
  last (stages self) = Some sl →
  set_stage_backward self stage w
  = (set_pages w ((relabel self sl <$> take (page w) (pages w))
                  ++ relabel self stage p :: drop (S (page w)) (pages w)), Ok tt).
Proof.
  intros Hp Hpos Hidx Hl.
  pose proof (lookup_lt_Some _ _ _ Hp) as Hcur.
  set (ps1 := <[page w := relabel self stage p]> (pages w)).
  assert (length ps1 = length (pages w)) as Hlen1 by apply length_insert.
  unfold set_stage_backward. rewrite bind_run, (update_annotation_run self _ _ _ Hp).
  fold ps1. rewrite bind_run. unfold pages_index_page.
  change (pages (set_pages w ps1)) with ps1.
  change (page (set_pages w ps1)) with (page w).
  rewrite decide_True by lia.
  rewrite bind_run. unfold lift at 1, Py.dict_item. rewrite Hidx. simpl.
  destruct (Z.ltb_spec 0 (Z.of_nat (page w))) as [_|?]; [|lia].
  rewrite bind_run. unfold gets at 1. rewrite bind_run.
  change (pages (set_pages w ps1)) with ps1.
  rewrite slice_down_prefix by lia. rewrite Nat2Z.id.
  pose proof (for_in_rev_seq (set_stage_page self) (take (page w) ps1)
                (drop (page w) ps1) (-1) (set_pages w ps1)) as Hloop.
  rewrite length_take_le in Hloop by lia.
  change (0 - 1) with (-1).
  rewrite Hloop by (simpl; by rewrite take_drop). clear Hloop.
  rewrite (backward_traverse_wrap sl _ Hl). simpl.
  destruct (insert_split (pages w) (page w) p (relabel self stage p) Hp) as [Ht Hd].
  fold ps1 in Ht, Hd. rewrite Ht, Hd.
  by rewrite fmap_rev, rev_involutive.
Qed.

End first_stage.

(** ** set_stage: the statements *)

(** X14.  With distinct stage names, [set_stage] makes the current page
    the first page of the target stage: the call returns, the current page
    carries the target, every page before it ends at a strictly younger
    stage and every page after it at the target stage or an older one. *)
Theorem X14_first_page_of_stage (nm : string) (S0 T : list string)
    (sc : option (list string)) (k k' : nat) (self : StageField)
    (target : string) (w : World) :
  __init__ nm S0 T sc k = (k', Ok self) →
  NoDup (stages self) →
  (page w < length (pages w))%nat →
  target ∈ Py.slice_1 (stages self) →
  ∃ w' t,
    set_stage self target w = (w', Ok tt) ∧
    stage_indices self !! target = Some t ∧
    labels self (pages w') !! page w = Some (Some target) ∧
    (∀ (j : nat) p', (j < page w)%nat → pages w' !! j = Some p' →
       0 ≤ forward_position self p' < t) ∧
    (∀ (j : nat) p', (page w < j)%nat → pages w' !! j = Some p' →
       t ≤ forward_position self p').
Proof.
  intros Hinit Hnd Hcur Htarget. apply init_wf in Hinit as [Hwf _].
  destruct (lookup_lt_is_Some_2 _ _ Hcur) as [p Hp].
  destruct (target_position self _ Htarget) as (t & Ht & Ht1 & _).
  destruct (set_stage_shape self Hwf Hnd _ _ _ _ Hp Ht Ht1)
    as (ps' & o' & Hpass & -> & Hlen & Hlab & Hbefore & Hafter).
  eexists _, (Z.of_nat t). split; [done|]. simpl.
  split; [by rewrite (idx_position self Hwf), Ht|]. split; [done|]. split; [|done].
  intros j p' Hj Hp'. split; [|by eapply Hbefore].
  pose proof (update_widget_pages_ascending self Hwf _ _ _ _ (or_introl eq_refl) Hpass)
    as Hasc.
  pose proof (update_widget_pages_position self Hwf _ _ _ _ _ _ (or_introl eq_refl)
                Hpass Hp') as Hfp.
  destruct (after_backward self t target (page w) p (pages w)) as [|q l] eqn:Hab.
  - pose proof (after_backward_length self t target _ _ _ Hp) as Hl.
    rewrite Hab in Hl. simpl in Hl. lia.
  - pose proof (after_backward_head self Hwf t target (page w) p (pages w) q Ht Ht1)
      as Hq.
    rewrite Hab in Hq. specialize (Hq eq_refl). rewrite Hfp. simpl.
    pose proof (running_max_start self (Z.max (-1) (forward_position self q))
                  (take j l)). lia.
Qed.

Lemma X14_first_page_of_stage_witness :
  ∃ w' t,
    set_stage default_field "adult" five_unset = (w', Ok tt) ∧
    stage_indices default_field !! "adult"%string = Some t ∧
    labels default_field (pages w') !! page five_unset = Some (Some "adult"%string) ∧
    (∀ (j : nat) p', (j < page five_unset)%nat → pages w' !! j = Some p' →
       0 ≤ forward_position default_field p' < t) ∧
    (∀ (j : nat) p', (page five_unset < j)%nat → pages w' !! j = Some p' →
       t ≤ forward_position default_field p').
Proof.
  apply (X14_first_page_of_stage default_name default_stages default_transitions None
           0%nat 2%nat).
  - vm_compute. reflexivity.
  - apply (bool_decide_unpack _). vm_compute. exact I.
  - simpl. lia.
  - apply (bool_decide_unpack _). vm_compute. exact I.
Defined.

(** X15.  With distinct stage names, [set_stage] is idempotent: the same
    call again, on the state the first one left, returns and changes
    nothing. *)
Theorem X15_set_stage_idempotent (nm : string) (S0 T : list string)
    (sc : option (list string)) (k k' : nat) (self : StageField)
    (target : string) (w : World) :
  __init__ nm S0 T sc k = (k', Ok self) →
  NoDup (stages self) →
  (page w < length (pages w))%nat →
  target ∈ Py.slice_1 (stages self) →
  ∃ w1, set_stage self target w = (w1, Ok tt) ∧
        set_stage self target w1 = (w1, Ok tt).
Proof.
  intros Hinit Hnd Hcur Htarget. apply init_wf in Hinit as [Hwf _].
  destruct (lookup_lt_is_Some_2 _ _ Hcur) as [p Hp].
  destruct (target_position self _ Htarget) as (t & Ht & Ht1 & Htlen).
  destruct (set_stage_shape self Hwf Hnd _ _ _ _ Hp Ht Ht1)
    as (ps' & o' & Hpass & Hrun & Hlen & Hlab & Hbefore & _).
  exists (set_pages (with_text (Some target) w) ps'). split; [done|].
  unfold labels in Hlab. apply list_lookup_fmap_Some in Hlab as (pc & Hpc & Hc).
  pose proof (update_widget_pages_ascending self Hwf _ _ _ _ (or_introl eq_refl) Hpass)
    as Hasc.
  assert (∀ p', p' ∈ ps' → 0 ≤ forward_position self p') as Hknown.
  { intros p' [j Hj]%list_elem_of_lookup_1.
    pose proof (update_widget_pages_position self Hwf _ _ _ _ _ _ (or_introl eq_refl)
                  Hpass Hj) as Hfp.
    destruct (after_backward self t target (page w) p (pages w)) as [|q l] eqn:Hab.
    - pose proof (after_backward_length self t target _ _ _ Hp) as Hl.
      rewrite Hab in Hl. simpl in Hl. lia.
    - pose proof (after_backward_head self Hwf t target (page w) p (pages w) q Ht Ht1)
        as Hq.
      rewrite Hab in Hq. specialize (Hq eq_refl). rewrite Hfp. simpl.
      pose proof (running_max_start self (Z.max (-1) (forward_position self q))
                    (take j l)). lia. }
  destruct (set_stage_run self Hwf target (set_pages (with_text (Some target) w) ps')
              pc t) as (ps2 & o2 & Hpass2 & Hrun2); [done|done|done|].
  change (pages (set_pages (with_text (Some target) w) ps')) with ps' in Hpass2.
  change (page (set_pages (with_text (Some target) w) ps')) with (page w) in Hpass2.
  assert (after_backward self t target (page w) pc ps' = ps') as Hsame.
  { unfold after_backward.
    rewrite (relabel_same self target pc) by done.
    rewrite (backward_pass_spec_fixed self Hwf (t - 1) (take (page w) ps')).
    - rewrite rev_involutive. by apply take_drop_middle.
    - lia.
    - intros q Hq. split; [apply Hknown; by eapply (subseteq_take (page w))|].
      apply list_elem_of_lookup_1 in Hq as [j Hj].
      apply lookup_take_Some in Hj as [Hj Hlt].
      specialize (Hbefore j q Hlt Hj). lia.
    - intros i j q1 q2 Hij Hq1 Hq2.
      apply lookup_take_Some in Hq1 as [Hq1 _]. apply lookup_take_Some in Hq2 as [Hq2 _].
      by destruct (ascending_lookup self (-1) ps' i j q1 q2 Hasc Hij Hq1 Hq2)
        as ((_ & ?) & _). }
  rewrite Hsame in Hpass2.
  rewrite (update_widget_pages_idem self Hwf _ _ _ _ (or_introl eq_refl) Hpass) in Hpass2.
  injection Hpass2 as <- <-. by rewrite Hrun2.
Qed.

Lemma X15_set_stage_idempotent_witness :
  ∃ w1, set_stage default_field "adult" five_unset = (w1, Ok tt) ∧
        set_stage default_field "adult" w1 = (w1, Ok tt).
Proof.
  apply (X15_set_stage_idempotent default_name default_stages default_transitions None
           0%nat 2%nat).
  - vm_compute. reflexivity.
  - apply (bool_decide_unpack _). vm_compute. exact I.
  - simpl. lia.
  - apply (bool_decide_unpack _). vm_compute. exact I.
Defined.

(** X16.  [set_stage] called directly with a stage of index 0 (no button
    does that) on a page that is not the first: [youngest_stage_i] is [-1],
    [stages[-1]] is the last stage, and the call returns with every page of
    the flipbook, the current one included, labelled with the last stage. *)
Theorem X16_first_stage_wraps (nm : string) (S0 T : list string)
    (sc : option (list string)) (k k' : nat) (self : StageField)
    (stage : string) (w : World) :
  __init__ nm S0 T sc k = (k', Ok self) →
  stage_indices self !! stage = Some 0 →
  (0 < page w < length (pages w))%nat →
  ∃ w' sl, last (stages self) = Some sl ∧
           set_stage self stage w = (w', Ok tt) ∧
           labels self (pages w') = replicate (length (pages w)) (Some sl).
Proof.
  intros Hinit Hidx [Hpos Hcur]. apply init_wf in Hinit as [Hwf _].
  destruct (lookup_lt_is_Some_2 _ _ Hcur) as [p Hp].
  pose proof (idx_range self Hwf _ _ Hidx) as [Hlen0 Hst0].
  assert (stage ∈ stages self) as Hin by by eapply list_elem_of_lookup_2.
  destruct (lookup_lt_is_Some_2 (stages self) (pred (length (stages self))))
    as [sl Hsl]; [lia|].
  assert (last (stages self) = Some sl) as Hl by by rewrite last_lookup.
  assert (stage_indices self !! sl = Some (Z.of_nat (length (stages self)) - 1)) as Hisl.
  { destruct (idx_of_stage self Hwf _ _ Hsl) as (i & Hi & Hle).
    pose proof (idx_range self Hwf _ _ Hi) as [? _]. rewrite Hi. f_equal. lia. }
  set (psB := (relabel self sl <$> take (page w) (pages w))
              ++ relabel self stage p :: drop (S (page w)) (pages w)).
  assert (length psB = length (pages w)) as HlenB.
  { unfold psB. rewrite length_app, length_fmap, length_take. simpl.
    rewrite length_drop. lia. }
  destruct (lookup_lt_is_Some_2 (pages w) 0%nat) as [p0 Hp0]; [lia|].
  assert (psB !! 0%nat = Some (relabel self sl p0)) as Hhead.
  { unfold psB. rewrite lookup_app_l by (rewrite length_fmap, length_take; lia).
    by rewrite list_lookup_fmap, lookup_take_lt, Hp0 by lia. }
  assert (forward_position self (relabel self sl p0)
          = Z.of_nat (length (stages self)) - 1) as Hfhead
    by by apply forward_position_relabel.
  destruct (update_widget_pages_total self Hwf (-1) psB) as (ps' & o' & Hpass);
    [by left| |].
  { right. intros q Hq. rewrite head_lookup, Hhead in Hq. injection Hq as <-. lia. }
  exists (set_pages (with_text (Some stage) w) ps'), sl. split; [done|]. split.
  - unfold set_stage. rewrite bind_run.
    rewrite (set_stage_backward_wrap self Hwf stage sl w p Hp Hpos Hidx Hl).
    fold psB. rewrite update_widget_valid by (by intros v [= <-]).
    change (pages (set_pages w psB)) with psB. by rewrite Hpass.
  - simpl.
    pose proof (traverse_length (update_widget_page self) (-1) psB) as Hlen.
    fold (update_widget_pages self (-1) psB) in Hlen. rewrite Hpass in Hlen.
    simpl in Hlen.
    apply (list_eq_same_length _ _ (length (pages w)));
      [by rewrite length_replicate|unfold labels; rewrite length_fmap; lia|].
    intros j x y Hj Hx Hy. apply lookup_replicate in Hy as [-> _].
    unfold labels in Hx. apply list_lookup_fmap_Some in Hx as (p' & -> & Hp').
    pose proof (update_widget_pages_position self Hwf _ _ _ _ _ _ (or_introl eq_refl)
                  Hpass Hp') as Hfp.
    assert (forward_position self p' = Z.of_nat (length (stages self)) - 1) as Hfp'.
    { apply Z.le_antisymm.
      - rewrite Hfp. apply running_max_bound; [lia|].
        intros q _. pose proof (forward_position_range self Hwf q). lia.
      - rewrite Hfp, <- Hfhead. apply oldest_seen_ge.
        apply list_elem_of_lookup. exists 0%nat. by rewrite lookup_take_lt by lia. }
    destruct (forward_position_cases self Hwf p') as [[Hneg _]|[_ (s & Hs & Hi)]]; [lia|].
    rewrite Hs. f_equal.
    apply (idx_range self Hwf) in Hi as [_ Hi]. rewrite Hfp' in Hi.
    replace (Z.to_nat (Z.of_nat (length (stages self)) - 1))
      with (pred (length (stages self))) in Hi by lia.
    rewrite Hsl in Hi. by injection Hi.
Qed.

Lemma X16_first_stage_wraps_witness :
  ∃ w' sl, last (stages default_field) = Some sl ∧
           set_stage default_field "egg" five_unset = (w', Ok tt) ∧
           labels default_field (pages w')
           = replicate (length (pages five_unset)) (Some sl).
Proof.
  apply (X16_first_stage_wraps default_name default_stages default_transitions None
           0%nat 2%nat).
  - vm_compute. reflexivity.
  - vm_compute. reflexivity.
  - simpl. lia.
Defined.

(** ** The two passes of [set_stage] together *)

Section two_passes.
Variable self : StageField.
Hypothesis Hwf : wf_field self.
Hypothesis Hnd : NoDup (stages self).

Lemma update_widget_pages_seen (o o' : Z) (ps ps' : list Page) :
  seen_index self o →
  update_widget_pages self o ps = (ps', Ok o') →
  seen_index self o' ∧
  o' = foldl (λ o p, Z.max o (forward_position self p)) o ps.
Proof.
  unfold update_widget_pages. revert o ps'.
  induction ps as [|p ps IH]; intros o ps' Ho Hrun; simpl in Hrun.
  - by injection Hrun as <- <-.
  - destruct (update_widget_page self o p) as [p1 r1] eqn:Hstep.
    destruct (update_widget_page_spec self Hwf _ _ _ _ Ho Hstep)
      as [(-> & Hseen & _)|(e & -> & _)]; [|done].
    destruct (traverse _ _ ps) as [ps1 r2] eqn:Ht. injection Hrun as <- ->.
    simpl. by apply (IH _ _ Hseen Ht).
Qed.

(** What the backward pass leaves is in order already: run over it, the
    loop of [update_widget] keeps every label. *)
Lemma update_widget_pages_after_backward (y : nat) (l : list Page) :
  (y < length (stages self))%nat →
  ∃ ps1 o1,
    update_widget_pages self (-1) (rev (backward_pass_spec self y l)) = (ps1, Ok o1) ∧
    labels self ps1 = labels self (rev (backward_pass_spec self y l)) ∧
    o1 ≤ Z.of_nat y.
Proof.
  revert y. induction l as [|p l IH]; intros y Hy.
  - simpl. exists [], (-1). unfold update_widget_pages. simpl. repeat split; lia.
  - simpl.
    assert (∃ h y', (y' ≤ y)%nat ∧ forward_position self h = Z.of_nat y' ∧
              (if (spec_position self p <? y)%nat
               then p :: backward_pass_spec self (spec_position self p) l
               else spec_overwrite self y p :: backward_pass_spec self y l)
              = h :: backward_pass_spec self y' l) as (h & y' & Hy' & Hfh & ->).
    { destruct (Nat.ltb_spec (spec_position self p) y) as [Hlt|Hge].
      - exists p, (spec_position self p). split; [lia|]. split; [|done].
        apply (spec_position_forward self Hwf). lia.
      - exists (spec_overwrite self y p), y. split; [lia|]. split; [|done].
        by apply spec_overwrite_position. }
    destruct (IH y') as (ps1 & o1 & Hrun1 & Hlab1 & Ho1); [lia|].
    simpl. unfold update_widget_pages in *. rewrite traverse_app, Hrun1. simpl.
    destruct (update_widget_pages_seen (-1) o1 _ ps1 (or_introl eq_refl) Hrun1)
      as [Hseen _].
    destruct (update_widget_page self o1 h) as [h1 r1] eqn:Hstep.
    destruct (update_widget_page_spec self Hwf _ _ _ _ Hseen Hstep)
      as [(-> & _ & _ & _ & _ & Hkeep & _)|(e & -> & Hneg & _)]; [|lia].
    eexists _, _. split; [done|]. unfold labels in *.
    rewrite !fmap_app, Hlab1. simpl. rewrite Hkeep by lia. split; [done|lia].
Qed.

End two_passes.

(** X17.  What a returning [update_widget] leaves on each page: with [m]
    the oldest stage index met from the first page up to and including this
    one (unset pages counting as [-1]), the page has no label if [m] is
    [-1], and carries [stages[m]] otherwise. *)
Theorem X17_running_maximum (nm : string) (S0 T : list string) (sc : option (list string))
    (k k' : nat) (self : StageField) (value : option string) (w w' : World)
    (j : nat) (p' : Page) :
  __init__ nm S0 T sc k = (k', Ok self) →
  update_widget self value w = (w', Ok tt) →
  pages w' !! j = Some p' →
  let m := oldest_seen self (take (S j) (pages w)) in
  (m = -1 ∧ page_label self p' = None) ∨
  (0 ≤ m ∧ ∃ s, stages self !! Z.to_nat m = Some s ∧ page_label self p' = Some s).
Proof.
  intros Hinit Hrun Hp'. apply init_wf in Hinit as [Hwf _]. cbv zeta.
  assert (∀ v, value = Some v → v ∈ stages self) as Hv.
  { intros v ->. destruct (decide (v ∈ stages self)) as [|Hv]; [done|].
    by rewrite (update_widget_invalid self _ _ Hv) in Hrun. }
  rewrite (update_widget_valid self _ _ Hv) in Hrun.
  destruct (update_widget_pages self (-1) (pages w)) as [ps' [o'|e]] eqn:Hpass; [|done].
  injection Hrun as <-. simpl in Hp'.
  pose proof (update_widget_pages_position self Hwf _ _ _ _ _ _ (or_introl eq_refl)
                Hpass Hp') as Hfp.
  fold (oldest_seen self (take (S j) (pages w))) in Hfp.
  pose proof (update_widget_pages_ascending self Hwf _ _ _ _ (or_introl eq_refl) Hpass)
    as Hasc.
  destruct (ascending_lookup self (-1) ps' j j p' p' Hasc) as (_ & Hunset & _);
    [lia|done|done|].
  rewrite <- Hfp.
  destruct (forward_position_cases self Hwf p') as [[Hneg _]|[Hpos (s & Hs & Hi)]].
  - left. split; [done|]. by apply Hunset.
  - right. split; [done|]. exists s. split; [|done].
    by apply (idx_range self Hwf) in Hi as [_ Hi].
Qed.

Lemma X17_running_maximum_witness :
  (oldest_seen default_field (take 3 (pages three_mixed)) = -1 ∧
   page_label default_field
     (recolor (Some (255, 255, 184)) (relabel default_field "adult" blank_page)) = None) ∨
  (0 ≤ oldest_seen default_field (take 3 (pages three_mixed)) ∧
   ∃ s, stages default_field
          !! Z.to_nat (oldest_seen default_field (take 3 (pages three_mixed))) = Some s ∧
        page_label default_field
          (recolor (Some (255, 255, 184)) (relabel default_field "adult" blank_page))
        = Some s).
Proof.
  apply (X17_running_maximum default_name default_stages default_transitions None
           0%nat 2%nat default_field None three_mixed
           (update_widget default_field None three_mixed).1 2%nat).
  - vm_compute. reflexivity.
  - vm_compute. reflexivity.
  - vm_compute. reflexivity.
Defined.

(** X18.  With distinct stage names, the closing [update_widget] of
    [set_stage] changes no label up to and including the current page:
    there the labels are the ones the backward pass left. *)
Theorem X18_forward_pass_after_current (nm : string) (S0 T : list string)
    (sc : option (list string)) (k k' : nat) (self : StageField)
    (target : string) (w : World) :
  __init__ nm S0 T sc k = (k', Ok self) →
  NoDup (stages self) →
  (page w < length (pages w))%nat →
  target ∈ Py.slice_1 (stages self) →
  ∃ wB w',
    set_stage_backward self target w = (wB, Ok tt) ∧
    set_stage self target w = (w', Ok tt) ∧
    take (S (page w)) (labels self (pages w'))
    = take (S (page w)) (labels self (pages wB)).
Proof.
  intros Hinit Hnd Hcur Htarget. apply init_wf in Hinit as [Hwf _].
  destruct (lookup_lt_is_Some_2 _ _ Hcur) as [p Hp].
  destruct (target_position self _ Htarget) as (t & Ht & Ht1 & Htlen).
  destruct (set_stage_shape self Hwf Hnd _ _ _ _ Hp Ht Ht1)
    as (ps' & o' & Hpass & Hrun & Hlen & Hlab & _ & _).
  pose proof (set_stage_backward_run self Hwf _ _ _ _ Hp Ht Ht1) as HrunB.
  cbv zeta in HrunB.
  destruct (insert_split (pages w) (page w) p (relabel self target p) Hp) as [Htk Hdr].
  rewrite Htk, Hdr in HrunB.
  fold (after_backward self t target (page w) p (pages w)) in HrunB.
  eexists _, _. split; [exact HrunB|]. split; [exact Hrun|]. simpl.
  unfold after_backward in *.
  set (R := backward_pass_spec self (t - 1) (rev (take (page w) (pages w)))) in *.
  assert (length (rev R) = page w) as HlenB.
  { unfold R. rewrite length_rev, backward_pass_spec_length, length_rev.
    apply length_take_le. lia. }
  destruct (update_widget_pages_after_backward self Hwf Hnd (t - 1)
              (rev (take (page w) (pages w)))) as (ps1 & o1 & Hrun1 & Hlab1 & _); [lia|].
  fold R in Hrun1, Hlab1.
  unfold update_widget_pages in Hpass, Hrun1. rewrite traverse_app, Hrun1 in Hpass.
  destruct (traverse (update_widget_page self) o1
              (relabel self target p :: drop (S (page w)) (pages w)))
    as [rest r] eqn:Hrest.
  injection Hpass as <- ->.
  assert (length ps1 = page w) as Hlen1.
  { pose proof (traverse_length (update_widget_page self) (-1) (rev R)) as Hl.
    rewrite Hrun1 in Hl. simpl in Hl. lia. }
  unfold labels in *. rewrite !fmap_app, Hlab1.
  rewrite !take_app, length_fmap, HlenB.
  replace (S (page w) - page w)%nat with 1%nat by lia.
  f_equal.
  rewrite fmap_app, lookup_app_r in Hlab by (rewrite length_fmap; lia).
  rewrite length_fmap, Hlen1, Nat.sub_diag in Hlab.
  destruct rest as [|c rest]; [done|]. simpl in Hlab. injection Hlab as Hc.
  simpl. by rewrite Hc, page_label_relabel.
Qed.

Lemma X18_forward_pass_after_current_witness :
  ∃ wB w',
    set_stage_backward default_field "adult" five_unset = (wB, Ok tt) ∧
    set_stage default_field "adult" five_unset = (w', Ok tt) ∧
    take (S (page five_unset)) (labels default_field (pages w'))
    = take (S (page five_unset)) (labels default_field (pages wB)).
Proof.
  apply (X18_forward_pass_after_current default_name default_stages default_transitions
           None 0%nat 2%nat).
  - vm_compute. reflexivity.
  - apply (bool_decide_unpack _). vm_compute. exact I.
  - simpl. lia.
  - apply (bool_decide_unpack _). vm_compute. exact I.
Defined.

(** X19.  The value passed to [update_widget] only decides the text shown:
    for two values that pass the validation, the call ends the same way and
    leaves the same pages, labels and colours alike. *)
Theorem X19_value_only_text (self : StageField) (v1 v2 : option string) (w : World) :
  (∀ v, v1 = Some v → v ∈ stages self) →
  (∀ v, v2 = Some v → v ∈ stages self) →
  pages (update_widget self v1 w).1 = pages (update_widget self v2 w).1 ∧
  (update_widget self v1 w).2 = (update_widget self v2 w).2 ∧
  label (update_widget self v1 w).1 = default EmptyString v1.
Proof.
  intros Hv1 Hv2.
  by rewrite (update_widget_valid self _ _ Hv1), (update_widget_valid self _ _ Hv2).
Qed.

Lemma X19_value_only_text_witness :
  pages (update_widget default_field None three_mixed).1
  = pages (update_widget default_field (Some "dead"%string) three_mixed).1 ∧
  (update_widget default_field None three_mixed).2
  = (update_widget default_field (Some "dead"%string) three_mixed).2 ∧
  label (update_widget default_field None three_mixed).1 = default EmptyString None.
Proof.
  apply (X19_value_only_text default_field None (Some "dead"%string) three_mixed).
  - intros v. discriminate.
  - intros v [= <-]. apply (bool_decide_unpack _). vm_compute. exact I.
Defined.
